(** * duyetbot/website: the interactive demo widgets and the site builder

    A shallow embedding of the React components under [interactive/] (their
    [useState] cells become record fields, their event handlers become
    functions from state to state, registered timers become fields of the
    state) and of the static-site builder's contract, followed by the
    properties the specification states about them.

    Part I holds the embedding, one module per source file.
    Part II holds the proofs, one module per component. *)

From Stdlib Require Import ZArith NArith Lia PrimFloat Ascii String.
From Stdlib Require Import Sorted Permutation.
From stdpp Require Import base strings list gmap.

Local Open Scope Z_scope.

(** * Part I: the embedding *)

(** ** JavaScript semantics shared by the components *)

Module JS.

(** [a % b] on integer-valued numbers: the remainder takes the sign of
    the dividend (ECMAScript Number::remainder), which is [Z.rem]. *)
Definition rem (a b : Z) : Z := Z.rem a b.

(** [cond && <Element />] inside JSX: the element when [cond] holds,
    [false] (which React does not render) otherwise. *)
Definition and_then {A} (cond : bool) (e : A) : option A :=
  if cond then Some e else None.

(** The children React mounts from a list of JSX expressions. *)
Definition mounted {A} (children : list (option A)) : list A :=
  omap (fun c => c) children.

(** [a === b] on strings. *)
Definition strict_eq (a b : string) : bool := String.eqb a b.

(** [s.split(sep)] with a one-character separator, on characters. *)
Fixpoint split_on (sep : ascii) (s : list ascii) : list (list ascii) :=
  match s with
  | [] => [[]]
  | c :: rest =>
      if Ascii.eqb c sep then [] :: split_on sep rest
      else match split_on sep rest with
           | [] => [[c]]
           | piece :: pieces => (c :: piece) :: pieces
           end
  end.

End JS.

(** ** app/page.tsx *)

Module Home.

Record tab := { id : string; label : string; icon : string }.

Definition tabs : list tab :=
  [ {| id := "playground"; label := "🎮 Playground"; icon := "🎮" |};
    {| id := "status";     label := "📊 Status";     icon := "📊" |};
    {| id := "features";   label := "⚡ Features";   icon := "⚡" |};
    {| id := "config";     label := "⚙️ Config";     icon := "⚙️" |};
    {| id := "feedback";   label := "💬 Feedback";   icon := "💬" |} ].

(** [const [activeTab, setActiveTab] = useState('playground')] *)
Definition initial : string := "playground".

(** [onClick={() => setActiveTab(tab.id)}] of the button rendered for
    [t]; the previous value is not consulted. *)
Definition onClick (t : tab) (activeTab : string) : string := id t.

(** The buttons of the navigation bar: one per entry of [tabs]. *)
Inductive click : string -> string -> Prop :=
| click_tab t activeTab : In t tabs -> click activeTab (onClick t activeTab).

Inductive reachable : string -> Prop :=
| reach_initial : reachable initial
| reach_click a a' : reachable a -> click a a' -> reachable a'.

Inductive component :=
| ChatDemo | StatusDashboard | FeatureComparison
| ConfigPreview | FeedbackForm | Testimonials.

#[warnings="-register-all"]
Inductive element :=
| Widget (c : component)
| Div (children : list element).

(** The five guarded JSX expressions of the content area. *)
Definition content (activeTab : string) : list (option element) :=
  [ JS.and_then (JS.strict_eq activeTab "playground") (Widget ChatDemo);
    JS.and_then (JS.strict_eq activeTab "status") (Widget StatusDashboard);
    JS.and_then (JS.strict_eq activeTab "features") (Widget FeatureComparison);
    JS.and_then (JS.strict_eq activeTab "config") (Widget ConfigPreview);
    JS.and_then (JS.strict_eq activeTab "feedback")
      (Div [Widget FeedbackForm; Widget Testimonials]) ].

Fixpoint widgets (e : element) : list component :=
  match e with
  | Widget c => [c]
  | Div children => flat_map widgets children
  end.

(** [activeTab === tab.id] in the class of a tab's button: the
    highlighted button. *)
Definition highlighted (activeTab : string) (t : tab) : bool :=
  JS.strict_eq activeTab (id t).

End Home.

(** ** components/Testimonials.tsx *)

Module Testimonials.

Record Testimonial := {
  id : Z;
  name : string;
  role : string;
  content : string;
  rating : Z;
  avatar : string
}.

Definition testimonials : list Testimonial :=
  [ {| id := 1; name := "Duyet Le"; role := "Creator & Maintainer";
       content := "duyetbot has transformed how I work. The agent routing feature is incredible - it automatically handles both quick questions and complex technical challenges.";
       rating := 5; avatar := "👨‍💻" |};
    {| id := 2; name := "Alex Chen"; role := "Data Engineer";
       content := "The code debugging capabilities are outstanding. It saved me hours on a complex data pipeline issue. The @complex agent really shines for technical work.";
       rating := 5; avatar := "👨‍🔬" |};
    {| id := 3; name := "Sarah Kim"; role := "Developer";
       content := "Love the automation features! The bot handles my daily reports, monitoring, and even helps with blog posts. It feels like having a real teammate.";
       rating := 5; avatar := "👩‍💼" |};
    {| id := 4; name := "Marcus Johnson"; role := "DevOps Engineer";
       content := "The system status dashboard is exactly what I needed. Real-time monitoring of all services with clear health indicators. Makes incident response much faster.";
       rating := 5; avatar := "👨‍🚀" |} ].

(** [testimonials.length] *)
Definition length : Z := Z.of_nat (List.length testimonials).
Arguments length : simpl never.

(** The two [useState] cells, and whether the interval registered by the
    [useEffect] is live. *)
Record state := {
  currentIndex : Z;
  isPaused : bool;
  interval : bool
}.

Definition setCurrentIndex (f : Z -> Z) (s : state) : state :=
  {| currentIndex := f (currentIndex s);
     isPaused := isPaused s;
     interval := interval s |}.

(** [useEffect(..., [isPaused])]: the cleanup clears the previous
    interval; the body returns early when paused and registers a fresh
    interval otherwise. *)
Definition useEffect (s : state) : state :=
  {| currentIndex := currentIndex s;
     isPaused := isPaused s;
     interval := if isPaused s then false else true |}.

Definition setIsPaused (b : bool) (s : state) : state :=
  useEffect {| currentIndex := currentIndex s;
               isPaused := b;
               interval := interval s |}.

(** State after mount: both cells at their defaults, effect run once. *)
Definition initial : state :=
  useEffect {| currentIndex := 0; isPaused := false; interval := false |}.

(** The callback handed to [setInterval]. *)
Definition tick (s : state) : state :=
  setCurrentIndex (fun prev => JS.rem (prev + 1) length) s.

Definition goToSlide (index : Z) (s : state) : state :=
  setCurrentIndex (fun _ => index) s.

Definition goToPrevious (s : state) : state :=
  setCurrentIndex (fun prev => JS.rem (prev - 1 + length) length) s.

Definition goToNext (s : state) : state :=
  setCurrentIndex (fun prev => JS.rem (prev + 1) length) s.

(** [testimonials[currentIndex]]; [None] stands for [undefined]. *)
Definition currentTestimonial (s : state) : option Testimonial :=
  if currentIndex s <? 0 then None
  else testimonials !! Z.to_nat (currentIndex s).

Inductive event :=
| TimerFires                (* the 5000 ms interval elapses *)
| MouseEnter | MouseLeave   (* pointer over the carousel *)
| ClickDot (index : Z)
| ClickPrevious
| ClickNext.

Definition step (s : state) (e : event) : state :=
  match e with
  | TimerFires => if interval s then tick s else s
  | MouseEnter => setIsPaused true s
  | MouseLeave => setIsPaused false s
  | ClickDot index => goToSlide index s
  | ClickPrevious => goToPrevious s
  | ClickNext => goToNext s
  end.

Definition run (s : state) (es : list event) : state := fold_left step es s.

(** The dot buttons: [testimonials.map((_, index) => ... goToSlide(index))]. *)
Definition dots : list Z := imap (fun index _ => Z.of_nat index) testimonials.

(** Events the rendered component can deliver. *)
Definition deliverable (e : event) : Prop :=
  match e with
  | ClickDot index => In index dots
  | _ => True
  end.

Definition in_bounds (s : state) : Prop := 0 <= currentIndex s < length.

(** [index === currentIndex] in the class of a dot: the wide dot. *)
Definition dot_active (s : state) (index : Z) : bool :=
  index =? currentIndex s.

(** States the mounted component can be in. *)
Inductive reachable : state -> Prop :=
| reach_initial : reachable initial
| reach_step s e : reachable s -> deliverable e -> reachable (step s e).

End Testimonials.

(** ** components/ConfigPreview.tsx *)

Module ConfigPreview.

(** A JavaScript value as the fields of [Config] can hold one at run time.
    The interface declares [model: string], [temperature: number],
    [maxTokens: number] and three booleans; [toggleSetting] accepts any
    [keyof Config] and stores a boolean under it, so the fields are kept
    dynamically typed here. Numbers are IEEE 754 doubles. *)
Inductive value :=
| VString (s : string)
| VNumber (x : float)
| VBoolean (b : bool).

(** ToBoolean: the empty string, [0], [-0] and [NaN] are falsy. *)
Definition truthy (v : value) : bool :=
  match v with
  | VString s => negb (String.eqb s "")
  | VNumber x => negb (PrimFloat.eqb x 0%float || PrimFloat.is_nan x)
  | VBoolean b => b
  end.

(** [!v] *)
Definition not (v : value) : value := VBoolean (negb (truthy v)).

Record Config := {
  model : value;
  temperature : value;
  maxTokens : value;
  streaming : value;
  thinking : value;
  agentRouting : value
}.

(** [keyof Config] *)
Inductive key :=
| Kmodel | Ktemperature | KmaxTokens | Kstreaming | Kthinking | KagentRouting.

(** [prev[key]] *)
Definition get (k : key) (c : Config) : value :=
  match k with
  | Kmodel => model c
  | Ktemperature => temperature c
  | KmaxTokens => maxTokens c
  | Kstreaming => streaming c
  | Kthinking => thinking c
  | KagentRouting => agentRouting c
  end.

(** [{ ...prev, [key]: v }] *)
Definition spread_with (prev : Config) (k : key) (v : value) : Config :=
  {| model := if k is Kmodel then v else model prev;
     temperature := if k is Ktemperature then v else temperature prev;
     maxTokens := if k is KmaxTokens then v else maxTokens prev;
     streaming := if k is Kstreaming then v else streaming prev;
     thinking := if k is Kthinking then v else thinking prev;
     agentRouting := if k is KagentRouting then v else agentRouting prev |}.

(** The argument of [useState<Config>], also what the reset button sets. *)
#[warnings="-inexact-float"]
Definition default : Config :=
  {| model := VString "zai/glm-4.7";
     temperature := VNumber 0.7%float;
     maxTokens := VNumber 4096%float;
     streaming := VBoolean true;
     thinking := VBoolean false;
     agentRouting := VBoolean true |}.

Definition models : list string :=
  ["zai/glm-4.7"; "zai/glm-4.7-flash"; "zai/glm-4.7-reasoning"].

(** [setConfig((prev) => ({ ...prev, [key]: !prev[key] }))] *)
Definition toggleSetting (k : key) (prev : Config) : Config :=
  spread_with prev k (not (get k prev)).

Record Parameters := { p_temperature : value; max_tokens : value }.
Record Capabilities := {
  c_streaming : value; c_thinking : value; agent_routing : value
}.
Record Runtime := { host : string; node : string; shell : string }.
Record Preview := {
  agent : string;
  p_model : value;
  parameters : Parameters;
  capabilities : Capabilities;
  runtime : Runtime
}.

(** The function closes over the [config] of the render that calls it. *)
Definition generateConfigPreview (config : Config) : Preview :=
  {| agent := "main";
     p_model := model config;
     parameters :=
       {| p_temperature := temperature config;
          max_tokens := maxTokens config |};
     capabilities :=
       {| c_streaming := streaming config;
          c_thinking := thinking config;
          agent_routing := agentRouting config |};
     runtime :=
       {| host := "openclaw"; node := "v22.22.0"; shell := "bash" |} |}.

(** The controls of the settings panel. The select and the two sliders
    deliver the chosen value; for the sliders it is the result of
    [parseFloat] / [parseInt] on the control's value. *)
Inductive event :=
| ChangeModel (v : string)
| ChangeTemperature (v : float)
| ChangeMaxTokens (v : float)
| ClickToggle (k : key)
| ClickReset.

Definition step (config : Config) (e : event) : Config :=
  match e with
  | ChangeModel v => spread_with config Kmodel (VString v)
  | ChangeTemperature v => spread_with config Ktemperature (VNumber v)
  | ChangeMaxTokens v => spread_with config KmaxTokens (VNumber v)
  | ClickToggle k => toggleSetting k config
  | ClickReset => default
  end.

Definition run (config : Config) (es : list event) : Config :=
  fold_left step es config.

(** The three toggle switches call [toggleSetting] with these keys. *)
Definition toggles : list key := [Kstreaming; Kthinking; KagentRouting].

(** What the preview pane shows in a render: the snapshot is generated
    during the render from that render's state. *)
Definition render (config : Config) : Preview := generateConfigPreview config.

(** A configuration as the interface types it. *)
Definition well_typed (c : Config) : Prop :=
  (exists s, model c = VString s)
  /\ (exists x, temperature c = VNumber x)
  /\ (exists x, maxTokens c = VNumber x)
  /\ (exists b, streaming c = VBoolean b)
  /\ (exists b, thinking c = VBoolean b)
  /\ (exists b, agentRouting c = VBoolean b).

(** Events the rendered controls can deliver: the select offers the
    entries of [models], the switches pass the keys of [toggles]. *)
Definition deliverable (e : event) : Prop :=
  match e with
  | ChangeModel v => In v models
  | ClickToggle k => In k toggles
  | _ => True
  end.

Inductive reachable : Config -> Prop :=
| reach_default : reachable default
| reach_step c e : reachable c -> deliverable e -> reachable (step c e).

End ConfigPreview.

(** ** components/ChatDemo.tsx *)

Module ChatDemo.

(** A JavaScript string is a sequence of UTF-16 code units. *)
Definition code_unit := N.
Definition jsstring := list code_unit.

(** An ASCII-only literal of the source as code units. *)
Definition lit (s : string) : jsstring :=
  map N_of_ascii (list_ascii_of_string s).

(** ECMAScript WhiteSpace and LineTerminator, the code points that
    [String.prototype.trim] strips. All lie in the basic plane. *)
Definition is_white_space (c : code_unit) : bool :=
  ((c =? 0x0009) || (c =? 0x000B) || (c =? 0x000C) || (c =? 0xFEFF)
   || (c =? 0x0020) || (c =? 0x00A0) || (c =? 0x1680)
   || ((0x2000 <=? c) && (c <=? 0x200A))
   || (c =? 0x202F) || (c =? 0x205F) || (c =? 0x3000)
   || (c =? 0x000A) || (c =? 0x000D) || (c =? 0x2028) || (c =? 0x2029))%N.

Fixpoint trim_start (s : jsstring) : jsstring :=
  match s with
  | [] => []
  | c :: rest => if is_white_space c then trim_start rest else s
  end.

Definition trim_end (s : jsstring) : jsstring := rev (trim_start (rev s)).

(** [s.trim()] *)
Definition trim (s : jsstring) : jsstring := trim_end (trim_start s).

(** [!s] on a string: only the empty string is falsy. *)
Definition not (s : jsstring) : bool := if s is [] then true else false.

Inductive sender := user | bot.

Record Message := {
  id : Z;
  type : sender;
  content : option jsstring;   (* [None] is [undefined] *)
  timestamp : Z                (* a [Date], in milliseconds *)
}.

Definition demoResponses : list jsstring :=
  [ lit "I'm duyetbot! I help with data engineering, infrastructure, and AI projects. What can I assist you with today?";
    lit "Great question! I use GLM-4.7 as my main model for most tasks, and I can route to specialized agents like @complex for technical work.";
    lit "I wake up fresh each session, but I maintain memory through files in my workspace. This website is one way I persist my identity.";
    lit "I'm built on the OpenClaw platform and can use various tools - browser control, file operations, web search, and more!";
    lit "That's an interesting challenge! Let me think about it... I could help you build a solution using Python or TypeScript." ].

Definition quickQuestions : list jsstring :=
  [ lit "What can you do?"; lit "How do you work?";
    lit "Tell me about yourself"; lit "Help me with a task" ].

(** What a handler reads from its surroundings: [Date.now()],
    [new Date()] and one draw of [Math.random()]. *)
Record env := { date_now : Z; new_date : Z; random : float }.

(** The three [useState] cells, and the delays of the [setTimeout] calls
    whose callback has not run yet. *)
Record state := {
  messages : list Message;
  input : jsstring;
  isTyping : bool;
  timeouts : list float
}.

(** The state at mount; [mounted_at] is the [new Date()] of the greeting,
    whose text ends in U+1F44B as a surrogate pair. *)
Definition initial (mounted_at : Z) : state :=
  {| messages :=
       [ {| id := 1; type := bot;
            content :=
              Some (lit "Hello! I'm duyetbot, an AI assistant. Try asking me something! "
                    ++ [0xD83D; 0xDC4B]%N);
            timestamp := mounted_at |} ];
     input := [];
     isTyping := false;
     timeouts := [] |}.

Fixpoint float_of_nat (n : nat) : float :=
  match n with
  | O => 0%float
  | S m => (float_of_nat m + 1)%float
  end.

(** [Math.floor(x)] as an index, for [0 <= x <= bound]: the largest
    [k <= bound] with [k <= x]. *)
Fixpoint floor_index (bound : nat) (x : float) : nat :=
  match bound with
  | O => O
  | S b => if PrimFloat.leb (float_of_nat bound) x then bound
           else floor_index b x
  end.

Definition handleSend (e : env) (s : state) : state :=
  if not (trim (input s)) then s
  else
    let userMessage :=
      {| id := date_now e; type := user;
         content := Some (input s); timestamp := new_date e |} in
    {| messages := messages s ++ [userMessage];
       input := [];
       isTyping := true;
       timeouts :=
         timeouts s ++ [(1000 + random e * 1000)%float] |}.

(** The callback of the [setTimeout] in [handleSend]. *)
Definition botReply (e : env) (s : state) : state :=
  let n := List.length demoResponses in
  let response :=
    demoResponses !! floor_index n (random e * float_of_nat n)%float in
  let botMessage :=
    {| id := date_now e + 1; type := bot;
       content := response; timestamp := new_date e |} in
  {| messages := messages s ++ [botMessage];
     input := input s;
     isTyping := false;
     timeouts := timeouts s |}.

Definition setInput (v : jsstring) (s : state) : state :=
  {| messages := messages s; input := v;
     isTyping := isTyping s; timeouts := timeouts s |}.

(** [disabled={!input.trim() || isTyping}] on the submit button. *)
Definition send_disabled (s : state) : bool :=
  not (trim (input s)) || isTyping s.

Inductive event :=
| Change (v : jsstring)          (* typing in the input *)
| ClickQuick (question : jsstring)
| Submit (e : env)               (* the form's submit event *)
| TimeoutFires (i : nat) (e : env).

Definition step (s : state) (ev : event) : state :=
  match ev with
  | Change v => setInput v s
  | ClickQuick question => setInput question s
  | Submit e =>
      (* a disabled submit button blocks the form's submission *)
      if send_disabled s then s else handleSend e s
  | TimeoutFires i e =>
      match timeouts s !! i with
      | Some _ =>
          botReply e {| messages := messages s; input := input s;
                        isTyping := isTyping s;
                        timeouts := delete i (timeouts s) |}
      | None => s
      end
  end.

(** Empty, or nothing but white space. *)
Definition blank (s : jsstring) : Prop := forallb is_white_space s = true.

Definition run (s : state) (evs : list event) : state :=
  fold_left step evs s.

(** States the mounted component can be in. *)
Inductive reachable : state -> Prop :=
| reach_initial mounted_at : reachable (initial mounted_at)
| reach_step s ev : reachable s -> reachable (step s ev).

End ChatDemo.

(** ** components/FeedbackForm.tsx *)

Module FeedbackForm.

Record FeedbackData := {
  name : string;
  email : string;
  rating : Z;
  category : string;
  message : string
}.

(** The two [useState] cells, the number of pending
    [setTimeout(() => setSubmitted(false), 3000)] calls and what was
    written with [console.log]. *)
Record state := {
  submitted : bool;
  feedback : FeedbackData;
  timeouts : nat;
  console : list FeedbackData
}.

Definition initial : state :=
  {| submitted := false;
     feedback := {| name := ""; email := ""; rating := 5;
                    category := "general"; message := "" |};
     timeouts := 0;
     console := [] |}.

Definition handleSubmit (s : state) : state :=
  {| submitted := true;
     feedback := feedback s;
     timeouts := S (timeouts s);
     console := console s ++ [feedback s] |}.

(** *** The form controls' constraints

    The form has no [noValidate], so the browser runs constraint
    validation over its controls before it dispatches [submit]:
    [required] on name, email and message, and [type="email"] on email. *)

(** [required]: the control suffers from being missing when its value is
    the empty string. *)
Definition value_missing (v : string) : bool := String.eqb v "".

Definition in_range (lo hi : N) (c : ascii) : bool :=
  ((lo <=? N_of_ascii c) && (N_of_ascii c <=? hi))%N.

Definition is_let_dig (c : ascii) : bool :=
  in_range 48 57 c || in_range 65 90 c || in_range 97 122 c.

Definition is_ldh (c : ascii) : bool := is_let_dig c || Ascii.eqb c "-".

Definition is_atext (c : ascii) : bool :=
  is_let_dig c
  || existsb (Ascii.eqb c) (list_ascii_of_string "!#$%&'*+-/=?^_`{|}~").

(** [label = let-dig [ [ ldh-str ] let-dig ]], at most 63 characters. *)
Definition is_label (l : list ascii) : bool :=
  match l with
  | [] => false
  | c :: _ =>
      is_let_dig c && is_let_dig (List.last l c) && forallb is_ldh l
      && (List.length l <=? 63)%nat
  end.

(** A valid e-mail address as HTML defines it for [type="email"]:
    [1*( atext / "." ) "@" label *( "." label )]. *)
Definition valid_email (v : string) : bool :=
  match JS.split_on "@" (list_ascii_of_string v) with
  | [local; domain] =>
      match local with [] => false | _ => true end
      && forallb (fun c => is_atext c || Ascii.eqb c ".") local
      && forallb is_label (JS.split_on "." domain)
  | _ => false
  end.

(** [type="email"]: a non-empty value that is not a valid address is a
    type mismatch. *)
Definition type_mismatch (v : string) : bool :=
  negb (String.eqb v "") && negb (valid_email v).

(** [form.checkValidity()] over the controls of the form. *)
Definition checkValidity (f : FeedbackData) : bool :=
  negb (value_missing (name f))
  && negb (value_missing (email f)) && negb (type_mismatch (email f))
  && negb (value_missing (message f)).

(** The three required fields hold something. *)
Definition populated (f : FeedbackData) : Prop :=
  name f <> "" /\ email f <> "" /\ message f <> "".

Definition setFeedback (f : FeedbackData) (s : state) : state :=
  {| submitted := submitted s; feedback := f;
     timeouts := timeouts s; console := console s |}.

Definition setSubmitted (b : bool) (s : state) : state :=
  {| submitted := b; feedback := feedback s;
     timeouts := timeouts s; console := console s |}.

Inductive event :=
| ChangeName (v : string)
| ChangeEmail (v : string)
| ChangeCategory (v : string)
| ClickStar (star : Z)
| ChangeMessage (v : string)
| ClickSubmit
| TimeoutFires.

Inductive view := ThankYou | Form (f : FeedbackData).

(** [if (submitted) return <thank-you panel>; return <form>] *)
Definition render (s : state) : view :=
  if submitted s then ThankYou else Form (feedback s).

Definition with_name v f :=
  {| name := v; email := email f; rating := rating f;
     category := category f; message := message f |}.
Definition with_email v f :=
  {| name := name f; email := v; rating := rating f;
     category := category f; message := message f |}.
Definition with_category v f :=
  {| name := name f; email := email f; rating := rating f;
     category := v; message := message f |}.
Definition with_rating v f :=
  {| name := name f; email := email f; rating := v;
     category := category f; message := message f |}.
Definition with_message v f :=
  {| name := name f; email := email f; rating := rating f;
     category := category f; message := v |}.

(** A request to submit the rendered form: the submit event, and with it
    [handleSubmit], is dispatched only when every control is valid;
    otherwise the browser reports the first invalid control and the
    component sees nothing. *)
Definition requestSubmit (s : state) : state :=
  if checkValidity (feedback s) then handleSubmit s else s.

Definition step (s : state) (e : event) : state :=
  match e with
  | TimeoutFires =>
      match timeouts s with
      | O => s
      | S n =>
          {| submitted := false; feedback := feedback s;
             timeouts := n; console := console s |}
      end
  | _ =>
      (* the controls exist only while the form is rendered *)
      if submitted s then s
      else match e with
           | ChangeName v => setFeedback (with_name v (feedback s)) s
           | ChangeEmail v => setFeedback (with_email v (feedback s)) s
           | ChangeCategory v => setFeedback (with_category v (feedback s)) s
           | ClickStar star => setFeedback (with_rating star (feedback s)) s
           | ChangeMessage v => setFeedback (with_message v (feedback s)) s
           | ClickSubmit => requestSubmit s
           | TimeoutFires => s
           end
  end.

Definition categories : list (string * string) :=
  [ ("general", "General Feedback"); ("feature", "Feature Request");
    ("bug", "Bug Report"); ("suggestion", "Suggestion"); ("other", "Other") ].

(** [StarRating]: one button per entry of [[1, 2, 3, 4, 5]], drawn filled
    when [star <= feedback.rating]. *)
Definition stars : list Z := [1; 2; 3; 4; 5].

Definition StarRating (f : FeedbackData) : list bool :=
  map (fun star => star <=? rating f) stars.

(** Events the rendered form can deliver: a star button passes its own
    number, the select offers the values of [categories]. *)
Definition deliverable (e : event) : Prop :=
  match e with
  | ClickStar star => In star stars
  | ChangeCategory v => In v (map fst categories)
  | _ => True
  end.

Inductive reachable : state -> Prop :=
| reach_initial : reachable initial
| reach_step s e : reachable s -> deliverable e -> reachable (step s e).

End FeedbackForm.

(** ** The static site builder

    Modelled from the spec: the builder ([build.py]) is not among the
    repository's sources; only its outline in the post "Building an
    LLM-Ready Static Website" and the specification's sections 3 to 7
    describe it. Everything in this module follows those words.
    Templating, markdown conversion and the three aggregate generators are
    the external collaborators of the specification's section 1 and are
    parameters. The output directory is a finite map from paths to
    contents; whether a write succeeds is a parameter too, and a write
    that fails aborts the build as section 7 says. A template file that is
    absent stops the build before anything is rendered and is not
    modelled. *)

Module Builder.

Record date := { year : Z; month : Z; day : Z }.

Definition leap (y : Z) : bool :=
  ((y mod 4 =? 0) && negb (y mod 100 =? 0)) || (y mod 400 =? 0).

Definition days_in_month (y m : Z) : Z :=
  if m =? 2 then (if leap y then 29 else 28)
  else if (m =? 4) || (m =? 6) || (m =? 9) || (m =? 11) then 30
  else 31.

Definition valid_date (d : date) : bool :=
  (1 <=? month d) && (month d <=? 12)
  && (1 <=? day d) && (day d <=? days_in_month (year d) (month d)).

Definition digit (c : ascii) : option Z :=
  let n := Z.of_N (N_of_ascii c) in
  if (48 <=? n) && (n <=? 57) then Some (n - 48) else None.

Fixpoint number (acc : Z) (cs : list ascii) : option Z :=
  match cs with
  | [] => Some acc
  | c :: rest => d ← digit c; number (10 * acc + d) rest
  end.

(** A [date] value of the frontmatter: [YYYY-MM-DD], a day that exists. *)
Definition parse_date (v : string) : option date :=
  match JS.split_on "-" (list_ascii_of_string v) with
  | [y; m; d] =>
      if (List.length y =? 4)%nat && (List.length m =? 2)%nat
         && (List.length d =? 2)%nat
      then
        yy ← number 0 y; mm ← number 0 m; dd ← number 0 d;
        let r := {| year := yy; month := mm; day := dd |} in
        if valid_date r then Some r else None
      else None
  | _ => None
  end.

(** One content file as read from the content directory: the slug its
    file name gives, the keys of its frontmatter block, its markdown. *)
Record ContentFile := {
  file_slug : string;
  frontmatter : gmap string string;
  file_body : string
}.

Record ContentItem := {
  title : string;
  date_of : date;
  description : string;
  slug : string;
  body : string
}.

Record MalformedContentError := { path_of : string; field : string }.

(** Modelled from the spec: the Content Loader (section 4.1) of the
    absent [build.py], for one file. A missing [title] or a [date] that is
    missing or names no calendar day fails that file alone. *)
Definition load (f : ContentFile) : ContentItem + MalformedContentError :=
  match frontmatter f !! "title" with
  | None => inr {| path_of := file_slug f; field := "title" |}
  | Some t =>
      match frontmatter f !! "date" ≫= parse_date with
      | None => inr {| path_of := file_slug f; field := "date" |}
      | Some d =>
          inl {| title := t; date_of := d;
                 description := default "" (frontmatter f !! "description");
                 slug := file_slug f; body := file_body f |}
      end
  end.

Definition loaded (f : ContentFile) : option ContentItem :=
  match load f with inl item => Some item | inr _ => None end.

Definition failed (f : ContentFile) : option MalformedContentError :=
  match load f with inl _ => None | inr e => Some e end.

(** *** The order of the site index *)

Definition date_compare (a b : date) : comparison :=
  match year a ?= year b with
  | Eq => match month a ?= month b with
          | Eq => day a ?= day b
          | c => c
          end
  | c => c
  end.

(** Date descending, equal dates by slug ascending. *)
Definition precedes (a b : ContentItem) : bool :=
  match date_compare (date_of a) (date_of b) with
  | Gt => true
  | Lt => false
  | Eq => String.leb (slug a) (slug b)
  end.

Fixpoint insert (x : ContentItem) (l : list ContentItem) : list ContentItem :=
  match l with
  | [] => [x]
  | y :: rest => if precedes x y then x :: l else y :: insert x rest
  end.

(** Modelled from the spec: the final sort of the absent [build.py]
    (sections 4.3 and 5), a stable sort by date descending with the slug
    ascending as tiebreak. *)
Definition sort (l : list ContentItem) : list ContentItem :=
  foldr insert [] l.

(** The order in words: [a] may stand before [b]. *)
Definition earlier (d1 d2 : date) : Prop :=
  year d1 < year d2
  \/ (year d1 = year d2 /\ month d1 < month d2)
  \/ (year d1 = year d2 /\ month d1 = month d2 /\ day d1 < day d2).

Definition index_order (a b : ContentItem) : Prop :=
  earlier (date_of b) (date_of a)
  \/ (date_of a = date_of b /\ String.leb (slug a) (slug b) = true).

(** *** Output *)

Inductive extension := Html | Md.

Inductive path :=
| Page (section slug : string) (e : extension)
| Discovery
| Feed
| Sitemap.

#[global] Instance extension_eq_dec : EqDecision extension.
Proof. solve_decision. Defined.

#[global] Instance path_eq_dec : EqDecision path.
Proof. solve_decision. Defined.

#[global] Instance path_countable : Countable path.
Proof.
  refine (inj_countable'
    (fun p => match p with
              | Page section slug Html => inl (section, slug, true)
              | Page section slug Md => inl (section, slug, false)
              | Discovery => inr 0%nat
              | Feed => inr 1%nat
              | Sitemap => inr 2%nat
              end)
    (fun x => match x with
              | inl (section, slug, true) => Page section slug Html
              | inl (section, slug, false) => Page section slug Md
              | inr 0%nat => Discovery
              | inr 1%nat => Feed
              | inr _ => Sitemap
              end) _).
  intros [section slug []| | |]; reflexivity.
Defined.

Record RenderedPage := { page_slug : string; html : string; md : string }.

(** A lightweight reference of the site index. *)
Record SiteRef := {
  ref_slug : string;
  ref_title : string;
  ref_description : string;
  ref_path : path
}.

(** [OutputWriteError] of section 7: the write that failed. *)
Record OutputWriteError := { unwritable : path }.

Record Outcome := {
  output : gmap path string;
  errors : list MalformedContentError;
  write_error : option OutputWriteError;
  exit_code : Z
}.

(** The output directory while a build runs: what has been written so
    far, and the write failure that aborted the build, if there was one. *)
Record Disk := {
  written : gmap path string;
  failure : option OutputWriteError
}.

Definition fresh : Disk := {| written := ∅; failure := None |}.

(** No write has failed so far. *)
Definition intact (d : Disk) : bool :=
  match failure d with None => true | Some _ => false end.

Section Pipeline.

(** The external collaborators. *)
Variable markdown_to_html : string -> string.
Variable render_template : ContentItem -> string -> string.
Variable metadata_header : ContentItem -> string.
Variable discovery_document : list SiteRef -> string.
Variable feed_document : list SiteRef -> string.
Variable sitemap_document : list SiteRef -> string.

(** The fixed output section of the build. *)
Variable section : string.

(** The surroundings: whether a write to a path succeeds. *)
Variable writable : path -> bool.

(** Modelled from the spec: the Dual-Format Renderer (section 4.2) of the
    absent [build.py]. The HTML path converts the body and substitutes it
    into the templates; the markdown path prepends the metadata header to
    the body as it is. *)
Definition render (item : ContentItem) : RenderedPage :=
  let source := body item in
  {| page_slug := slug item;
     html := render_template item (markdown_to_html source);
     md := metadata_header item +:+ source |}.

(** Modelled from the spec: one write of the absent [build.py] with the
    failure semantics of section 7. A write that fails is fatal: it aborts
    the remaining writes and what was written before it stays (no
    rollback). *)
Definition write (p : path) (content : string) (d : Disk) : Disk :=
  match failure d with
  | Some _ => d
  | None =>
      if writable p
      then {| written := <[p := content]> (written d); failure := None |}
      else {| written := written d;
              failure := Some {| unwritable := p |} |}
  end.

(** Modelled from the spec: the two writes of the absent [build.py] for
    one rendered page, at [/{section}/{slug}.html] and then at
    [/{section}/{slug}.md] (section 6; the order is that of the outline of
    [build_post] in the post on the LLM-ready website). *)
Definition write_page (d : Disk) (p : RenderedPage) : Disk :=
  write (Page section (page_slug p) Md) (md p)
    (write (Page section (page_slug p) Html) (html p) d).

(** What the two writes of a page leave when neither fails. *)
Definition page_inserted (out : gmap path string) (p : RenderedPage)
  : gmap path string :=
  <[Page section (page_slug p) Md := md p]>
    (<[Page section (page_slug p) Html := html p]> out).

(** The state of the two paths of slug [s]: both absent, or both holding
    the renderings of one item of [items]. *)
Definition paired (items : list ContentItem) (out : gmap path string)
    (s : string) : Prop :=
  (out !! Page section s Html = None /\ out !! Page section s Md = None)
  \/ exists item, In item items /\ slug item = s
       /\ out !! Page section s Html = Some (html (render item))
       /\ out !! Page section s Md = Some (md (render item)).

Definition reference (item : ContentItem) : SiteRef :=
  {| ref_slug := slug item; ref_title := title item;
     ref_description := description item;
     ref_path := Page section (slug item) Html |}.

(** The site index, rebuilt from all valid items on every build. *)
Definition site_index (items : list ContentItem) : list SiteRef :=
  map reference (sort items).

(** Modelled from the spec: the three aggregate documents of the absent
    [build.py] (section 4.3), written after the pages. *)
Definition write_aggregates (idx : list SiteRef) (d : Disk) : Disk :=
  write Sitemap (sitemap_document idx)
    (write Feed (feed_document idx)
      (write Discovery (discovery_document idx) d)).

(** Modelled from the spec: one run of the absent [build.py] (sections
    4.3, 5 and 7): load everything, render each item that loaded, write
    the pages front to back, then the three aggregates from the site
    index. A file that fails to load is reported and skipped; a write that
    fails aborts the rest. The outcome is non-zero when either happened. *)
Definition build (files : list ContentFile) : Outcome :=
  let items := omap loaded files in
  let errs := omap failed files in
  let disk :=
    write_aggregates (site_index items)
      (foldl write_page fresh (map render items)) in
  {| output := written disk;
     errors := errs;
     write_error := failure disk;
     exit_code :=
       match errs, failure disk with
       | [], None => 0
       | _, _ => 1
       end |}.

End Pipeline.

End Builder.

(** ** components/StatusDashboard.tsx *)

Module StatusDashboard.

(** The two [useState] cells of the dashboard ([lastUpdated] is a [Date],
    in milliseconds) and whether the interval registered by the
    [useEffect] is live. *)
Record state := {
  lastUpdated : Z;
  autoRefresh : bool;
  interval : bool
}.

(** [useEffect(..., [autoRefresh])]: the cleanup clears the previous
    interval; the body returns early when [!autoRefresh] and registers a
    fresh interval otherwise. *)
Definition useEffect (s : state) : state :=
  {| lastUpdated := lastUpdated s;
     autoRefresh := autoRefresh s;
     interval := if negb (autoRefresh s) then false else true |}.

Definition setLastUpdated (d : Z) (s : state) : state :=
  {| lastUpdated := d; autoRefresh := autoRefresh s;
     interval := interval s |}.

Definition setAutoRefresh (b : bool) (s : state) : state :=
  useEffect {| lastUpdated := lastUpdated s; autoRefresh := b;
               interval := interval s |}.

(** State after mount at time [now]. *)
Definition initial (now : Z) : state :=
  useEffect {| lastUpdated := now; autoRefresh := true; interval := false |}.

Inductive event :=
| TimerFires (now : Z)   (* the 5000 ms interval elapses; [new Date()] *)
| ClickToggle.           (* the pause / resume button *)

Definition step (s : state) (e : event) : state :=
  match e with
  | TimerFires now => if interval s then setLastUpdated now s else s
  | ClickToggle => setAutoRefresh (negb (autoRefresh s)) s
  end.

Definition run (s : state) (es : list event) : state := fold_left step es s.

Inductive reachable : state -> Prop :=
| reach_initial now : reachable (initial now)
| reach_step s e : reachable s -> reachable (step s e).

End StatusDashboard.

(** ** components/FeatureComparison.tsx *)

Module FeatureComparison.

Record Feature := {
  name : string;
  main : string;
  complex : string;
  description : string
}.

Definition features : list Feature :=
  [ {| name := "General Chat"; main := "✓"; complex := "✓";
       description := "Conversational assistance and Q&A" |};
    {| name := "Code Generation"; main := "✓"; complex := "✓";
       description := "Write, debug, and review code" |};
    {| name := "Web Browsing"; main := "✓"; complex := "✓";
       description := "Browse and interact with websites" |};
    {| name := "File Operations"; main := "✓"; complex := "✓";
       description := "Read, write, and manage files" |};
    {| name := "Complex Debugging"; main := "○"; complex := "✓";
       description := "Deep code analysis and bug fixes" |};
    {| name := "Architecture Design"; main := "○"; complex := "✓";
       description := "System architecture and patterns" |};
    {| name := "Performance Optimization"; main := "○"; complex := "✓";
       description := "Code and database optimization" |};
    {| name := "Quick Tasks"; main := "✓"; complex := "×";
       description := "Fast responses and simple queries" |} ].

Definition getFeatureClass (value : string) : string :=
  if JS.strict_eq value "✓"
  then "bg-green-100 text-green-800 dark:bg-green-900 dark:text-green-200"
  else if JS.strict_eq value "○"
  then "bg-yellow-100 text-yellow-800 dark:bg-yellow-900 dark:text-yellow-200"
  else "bg-red-100 text-red-800 dark:bg-red-900 dark:text-red-200".

(** The text of a badge of the detail panel:
    [v === '✓' ? 'Supported' : v === '○' ? 'Partial' : 'Not Supported']. *)
Definition supportLabel (value : string) : string :=
  if JS.strict_eq value "✓" then "Supported"
  else if JS.strict_eq value "○" then "Partial"
  else "Not Supported".

(** [useState<Feature | null>(null)] *)
Definition initial : option Feature := None.

(** [selectedFeature?.name === feature.name] in the class of a row; with
    nothing selected the left side is [undefined]. *)
Definition row_highlighted (selectedFeature : option Feature) (feature : Feature)
  : bool :=
  match selectedFeature with
  | Some selected => JS.strict_eq (name selected) (name feature)
  | None => false
  end.

Inductive event :=
| ClickRow (feature : Feature)   (* a row of the table *)
| ClickClose.                    (* the cross of the detail panel *)

Definition step (selectedFeature : option Feature) (e : event)
  : option Feature :=
  match e with
  | ClickRow feature => Some feature
  | ClickClose => None
  end.

(** The two badges of the detail panel, each a class and a text; nothing
    when no feature is selected. *)
Definition panel (selectedFeature : option Feature)
  : option ((string * string) * (string * string)) :=
  match selectedFeature with
  | Some f =>
      Some ((getFeatureClass (main f), supportLabel (main f)),
            (getFeatureClass (complex f), supportLabel (complex f)))
  | None => None
  end.

End FeatureComparison.

(** * Part II: properties *)

Module HomeProofs.
Import Home.

Lemma click_lands_on_tab a a' : click a a' -> In a' (map id tabs).
Proof.
  intros Hc. destruct Hc as [t a Ht]. unfold onClick. now apply in_map.
Qed.

Lemma reachable_is_tab a : reachable a -> In a (map id tabs).
Proof.
  induction 1 as [|a a' _ _ Hc].
  - simpl. auto.
  - eapply click_lands_on_tab; eassumption.
Qed.

Lemma tab_is_reachable a : In a (map id tabs) -> reachable a.
Proof.
  intros Hin. apply in_map_iff in Hin as (t & <- & Ht).
  apply (reach_click initial); [constructor|].
  exact (click_tab t initial Ht).
Qed.

(** C3. The shell's state is one of exactly five tab ids (playground,
    status, features, config, feedback): every reachable value of
    [activeTab] is one of them and each of them is reachable; the initial
    value is playground; and the only transition, a click on the button of
    a tab, sets the state to that tab's id whatever the state was. *)
Theorem tab_state_machine :
  map id tabs = ["playground"; "status"; "features"; "config"; "feedback"]
  /\ initial = "playground"
  /\ (forall a, reachable a <-> In a (map id tabs))
  /\ (forall t a, onClick t a = id t)
  /\ (forall a a', click a a' <-> exists t, In t tabs /\ a' = id t).
Proof.
  split; [reflexivity|]. split; [reflexivity|]. split; [|split].
  - intros a. split; [apply reachable_is_tab | apply tab_is_reachable].
  - reflexivity.
  - intros a a'. split.
    + intros [t a0 Ht]. exists t. auto.
    + intros (t & Ht & ->). exact (click_tab t a Ht).
Qed.

Lemma content_cases a :
  In a (map id tabs) ->
  a = "playground" \/ a = "status" \/ a = "features" \/ a = "config"
  \/ a = "feedback".
Proof. simpl. intuition congruence. Qed.

(** C4. In each of the five tab states the content area mounts exactly
    one subtree: of the five guarded expressions one yields an element and
    the other four yield nothing. For feedback that subtree is the grid
    holding the form and the carousel; for the other four it is the widget
    itself. *)
Theorem one_subtree_per_tab a :
  In a (map id tabs) ->
  exists e, JS.mounted (content a) = [e]
    /\ (a = "feedback" -> e = Div [Widget FeedbackForm; Widget Testimonials])
    /\ (a <> "feedback" -> exists c, e = Widget c).
Proof.
  intros Hin. apply content_cases in Hin.
  destruct Hin as [-> | [-> | [-> | [-> | ->]]]];
    eexists; (split; [reflexivity|]); split; intros H;
    try discriminate H; try (exfalso; apply H; reflexivity); eauto.
Qed.

Lemma one_subtree_per_tab_witness :
  In "feedback" (map id tabs)
  /\ exists e, JS.mounted (content "feedback") = [e].
Proof.
  assert (H : In "feedback" (map id tabs)) by (simpl; tauto).
  split; [exact H|].
  destruct (one_subtree_per_tab "feedback" H) as (e & He & _).
  exists e. exact He.
Defined.

(** What each state mounts, spelled out. *)
Lemma content_of_each_tab :
  JS.mounted (content "playground") = [Widget ChatDemo]
  /\ JS.mounted (content "status") = [Widget StatusDashboard]
  /\ JS.mounted (content "features") = [Widget FeatureComparison]
  /\ JS.mounted (content "config") = [Widget ConfigPreview]
  /\ JS.mounted (content "feedback")
     = [Div [Widget FeedbackForm; Widget Testimonials]].
Proof. repeat split. Qed.

(** X15. In every state the shell can reach exactly one tab button is
    highlighted, and it is the button of the tab whose id is the state. *)
Theorem one_tab_highlighted a :
  reachable a ->
  exists t, List.filter (highlighted a) tabs = [t] /\ id t = a.
Proof.
  intros Hr. apply reachable_is_tab, content_cases in Hr.
  destruct Hr as [-> | [-> | [-> | [-> | ->]]]];
    eexists; split; reflexivity.
Qed.

Lemma one_tab_highlighted_witness :
  reachable "config"
  /\ exists t, List.filter (highlighted "config") tabs = [t] /\ id t = "config".
Proof.
  assert (H : reachable "config").
  { apply (reach_click initial); [apply reach_initial|].
    apply (click_tab {| id := "config"; label := "⚙️ Config"; icon := "⚙️" |}).
    simpl. tauto. }
  split; [exact H | exact (one_tab_highlighted "config" H)].
Defined.

(** X16. The five guards of the content area exclude one another and
    cover nothing but the five ids: for any value of [activeTab] at most one
    subtree is mounted, and none at all exactly when the value is not the
    id of a tab. *)
Theorem content_off_tabs a :
  (List.length (JS.mounted (content a)) <= 1)%nat
  /\ (JS.mounted (content a) = [] <-> ~ In a (map id tabs)).
Proof.
  unfold content, JS.strict_eq.
  destruct (String.eqb_spec a "playground") as [->|H1];
    [split; [simpl; lia | split; [discriminate | simpl; tauto]]|].
  destruct (String.eqb_spec a "status") as [->|H2];
    [split; [simpl; lia | split; [discriminate | simpl; tauto]]|].
  destruct (String.eqb_spec a "features") as [->|H3];
    [split; [simpl; lia | split; [discriminate | simpl; tauto]]|].
  destruct (String.eqb_spec a "config") as [->|H4];
    [split; [simpl; lia | split; [discriminate | simpl; tauto]]|].
  destruct (String.eqb_spec a "feedback") as [->|H5];
    [split; [simpl; lia | split; [discriminate | simpl; tauto]]|].
  simpl. split; [lia|]. split; [|reflexivity].
  intros _ [H|[H|[H|[H|[H|[]]]]]]; congruence.
Qed.

End HomeProofs.

Module TestimonialsProofs.
Import Testimonials.

Lemma length_is_4 : length = 4.
Proof. reflexivity. Qed.

Lemma dots_are : dots = [0; 1; 2; 3].
Proof. reflexivity. Qed.

Lemma in_dots index : In index dots <-> 0 <= index < length.
Proof.
  rewrite dots_are, length_is_4. simpl. lia.
Qed.

Lemma rem_in_bounds a : 0 <= a -> 0 <= JS.rem a length < length.
Proof.
  intros Ha. unfold JS.rem. rewrite length_is_4.
  rewrite Z.rem_mod_nonneg by lia. apply Z.mod_pos_bound. lia.
Qed.

Lemma lookup_in_bounds s : in_bounds s -> is_Some (currentTestimonial s).
Proof.
  unfold in_bounds, currentTestimonial. rewrite length_is_4. intros H.
  destruct (Z.ltb_spec (currentIndex s) 0) as [|_]; [lia|].
  apply lookup_lt_is_Some. simpl. lia.
Qed.

Lemma step_in_bounds s e :
  deliverable e -> in_bounds s -> in_bounds (step s e).
Proof.
  unfold in_bounds. intros He Hs.
  destruct e; simpl in *.
  - destruct (interval s); [|exact Hs]. apply rem_in_bounds. lia.
  - exact Hs.
  - exact Hs.
  - now apply in_dots.
  - apply rem_in_bounds. rewrite length_is_4 in *. lia.
  - apply rem_in_bounds. lia.
Qed.

(** C8. Every update of the carousel (the timer tick, next, previous and
    a click on any of the four dots) keeps [0 <= currentIndex < 4], so
    [testimonials[currentIndex]] is always defined; previous at index 0
    gives 3. *)
Theorem carousel_index_in_bounds s :
  in_bounds s ->
  length = 4
  /\ in_bounds (tick s) /\ in_bounds (goToNext s)
  /\ in_bounds (goToPrevious s)
  /\ (forall index, In index [0; 1; 2; 3] -> in_bounds (goToSlide index s))
  /\ (forall e, deliverable e ->
        in_bounds (step s e) /\ is_Some (currentTestimonial (step s e)))
  /\ (currentIndex s = 0 -> currentIndex (goToPrevious s) = 3).
Proof.
  intros Hs. split; [reflexivity|].
  split; [exact (step_in_bounds s ClickNext I Hs)|].
  split; [exact (step_in_bounds s ClickNext I Hs)|].
  split; [exact (step_in_bounds s ClickPrevious I Hs)|].
  split; [|split].
  - intros index Hi. rewrite <- dots_are in Hi.
    exact (step_in_bounds s (ClickDot index) Hi Hs).
  - intros e He. pose proof (step_in_bounds s e He Hs) as H.
    split; [exact H | now apply lookup_in_bounds].
  - intros H0. simpl. rewrite H0. reflexivity.
Qed.

Lemma carousel_index_in_bounds_witness :
  in_bounds initial /\ currentIndex (goToPrevious initial) = 3.
Proof.
  assert (H : in_bounds initial) by (unfold in_bounds, length; simpl; lia).
  split; [exact H|].
  apply (carousel_index_in_bounds initial H). reflexivity.
Defined.

Lemma paused_timer_is_idle s n :
  interval s = false -> run s (replicate n TimerFires) = s.
Proof.
  intros Hi. induction n as [|n IH]; [reflexivity|].
  simpl. rewrite Hi. exact IH.
Qed.

(** C5. The carousel starts at index 0 with 4 items; a firing of the
    auto-advance timer replaces index [i] by [(i + 1) % 4]; after three
    firings from the start the index is 3; once the pointer enters the
    carousel no interval is registered and any number of elapsed periods
    leaves the index where it was. *)
Theorem carousel_auto_advance :
  currentIndex initial = 0 /\ length = 4 /\ interval initial = true
  /\ (forall s, interval s = true ->
        currentIndex (step s TimerFires) = JS.rem (currentIndex s + 1) 4)
  /\ currentIndex (run initial [TimerFires; TimerFires; TimerFires]) = 3
  /\ (forall s n,
        let hovered := step s MouseEnter in
        isPaused hovered = true /\ interval hovered = false
        /\ currentIndex (run hovered (replicate n TimerFires))
           = currentIndex s).
Proof.
  repeat (split; [reflexivity|]). split; [|split; [reflexivity|]].
  - intros s Hi. simpl. rewrite Hi. reflexivity.
  - intros s n hovered. split; [reflexivity|]. split; [reflexivity|].
    rewrite paused_timer_is_idle by reflexivity. reflexivity.
Qed.

Lemma carousel_auto_advance_witness :
  interval initial = true
  /\ currentIndex (step initial TimerFires) = JS.rem (currentIndex initial + 1) 4.
Proof.
  split; [reflexivity|].
  apply carousel_auto_advance. reflexivity.
Defined.

Lemma four_cases i : 0 <= i < 4 -> i = 0 \/ i = 1 \/ i = 2 \/ i = 3.
Proof. lia. Qed.

(** X11. On a state whose index is in bounds, next and previous undo each
    other, wrapping around at both ends. *)
Theorem next_previous_inverse s :
  in_bounds s ->
  goToPrevious (goToNext s) = s /\ goToNext (goToPrevious s) = s.
Proof.
  unfold in_bounds. rewrite length_is_4. intros H.
  destruct s as [i p t]. simpl in H.
  unfold goToPrevious, goToNext, setCurrentIndex, length. simpl.
  destruct (four_cases i H) as [-> | [-> | [-> | ->]]]; split; reflexivity.
Qed.

Lemma next_previous_inverse_witness :
  in_bounds initial
  /\ goToPrevious (goToNext initial) = initial
  /\ goToNext (goToPrevious initial) = initial.
Proof.
  assert (H : in_bounds initial) by (unfold in_bounds, length; simpl; lia).
  split; [exact H | exact (next_previous_inverse initial H)].
Defined.

Lemma tick_index s : 0 <= currentIndex s ->
  currentIndex (tick s) = (currentIndex s + 1) mod 4.
Proof.
  intros H. unfold tick, setCurrentIndex, JS.rem. simpl.
  rewrite length_is_4. apply Z.rem_mod_nonneg; lia.
Qed.

(** X12. With the interval live and the index in bounds, [n] firings of
    the timer move the carousel from index [i] to [(i + n) mod 4]; four
    firings bring the same testimonial back. *)
Theorem firings_add_up s n :
  in_bounds s -> interval s = true ->
  currentIndex (run s (replicate n TimerFires))
  = (currentIndex s + Z.of_nat n) mod 4
  /\ currentIndex (run s (replicate 4 TimerFires)) = currentIndex s.
Proof.
  intros Hb Hi.
  assert (Hn : forall n s, in_bounds s -> interval s = true ->
            currentIndex (run s (replicate n TimerFires))
            = (currentIndex s + Z.of_nat n) mod 4).
  { clear. induction n as [|n IH]; intros s Hb Hi.
    - simpl. unfold in_bounds in Hb. rewrite length_is_4 in Hb.
      rewrite Z.add_0_r, Z.mod_small; lia.
    - change (run s (replicate (S n) TimerFires))
        with (run (step s TimerFires) (replicate n TimerFires)).
      assert (Hs : step s TimerFires = tick s) by (simpl; now rewrite Hi).
      rewrite Hs, IH.
      + rewrite tick_index by (unfold in_bounds in Hb; lia).
        rewrite Zplus_mod_idemp_l. f_equal. lia.
      + rewrite <- Hs. now apply step_in_bounds.
      + exact Hi. }
  split; [now apply Hn|].
  rewrite (Hn 4%nat s Hb Hi). unfold in_bounds in Hb. rewrite length_is_4 in Hb.
  change (Z.of_nat 4) with (1 * 4). rewrite Z.mod_add by lia.
  apply Z.mod_small. lia.
Qed.

Lemma firings_add_up_witness :
  in_bounds initial /\ interval initial = true
  /\ currentIndex (run initial (replicate 6 TimerFires)) = 2.
Proof.
  assert (H : in_bounds initial) by (unfold in_bounds, length; simpl; lia).
  split; [exact H|]. split; [reflexivity|].
  destruct (firings_add_up initial 6 H eq_refl) as [E _].
  rewrite E. reflexivity.
Defined.

(** X13. In every state the carousel can reach the interval is registered
    exactly when the carousel is not paused, the index is in bounds, and
    moving the pointer in and out again leaves a running carousel as it
    was. *)
Theorem interval_follows_pause s :
  reachable s ->
  interval s = negb (isPaused s)
  /\ in_bounds s
  /\ (isPaused s = false -> step (step s MouseEnter) MouseLeave = s).
Proof.
  intros Hr.
  assert (H : interval s = negb (isPaused s) /\ in_bounds s).
  { induction Hr as [|s e Hr [IHi IHb] He].
    - split; [reflexivity|]. unfold in_bounds, length. simpl. lia.
    - split; [|now apply step_in_bounds].
      destruct e; simpl; try exact IHi; try reflexivity.
      destruct (interval s) eqn:E; simpl; rewrite ?E; exact IHi. }
  destruct H as [Hi Hb]. split; [exact Hi|]. split; [exact Hb|].
  intros Hp. destruct s as [i p t]. simpl in *. subst. reflexivity.
Qed.

Lemma interval_follows_pause_witness :
  reachable (step initial MouseEnter)
  /\ interval (step initial MouseEnter) = false.
Proof.
  assert (H : reachable (step initial MouseEnter)).
  { apply reach_step; [apply reach_initial | exact I]. }
  split; [exact H|].
  destruct (interval_follows_pause _ H) as [E _]. rewrite E. reflexivity.
Defined.

(** X14. With the index in bounds exactly one of the four dots is drawn
    active, the one at the current index. *)
Theorem one_active_dot s :
  in_bounds s -> List.filter (dot_active s) dots = [currentIndex s].
Proof.
  unfold in_bounds. rewrite length_is_4. intros H.
  destruct s as [i p t]. simpl in H. unfold dot_active. simpl.
  destruct (four_cases i H) as [-> | [-> | [-> | ->]]]; reflexivity.
Qed.

Lemma one_active_dot_witness :
  in_bounds (goToSlide 2 initial)
  /\ List.filter (dot_active (goToSlide 2 initial)) dots = [2].
Proof.
  assert (H : in_bounds (goToSlide 2 initial))
    by (unfold in_bounds, length; simpl; lia).
  split; [exact H | exact (one_active_dot _ H)].
Defined.

End TestimonialsProofs.

Module ConfigPreviewProofs.
Import ConfigPreview.

Lemma get_spread_same prev k v : get k (spread_with prev k v) = v.
Proof. destruct k; reflexivity. Qed.

Lemma get_spread_other prev k k' v :
  k' <> k -> get k' (spread_with prev k v) = get k' prev.
Proof. destruct k, k'; intros H; try reflexivity; contradiction. Qed.

(** C7. The settings snapshot is a function of the current configuration
    alone: its model, temperature and max_tokens fields are the values the
    state holds when it is generated, after any sequence of changes, and a
    change of one of the three is what the next snapshot shows. *)
Theorem preview_reflects_state :
  (forall config,
     p_model (generateConfigPreview config) = model config
     /\ p_temperature (parameters (generateConfigPreview config))
        = temperature config
     /\ max_tokens (parameters (generateConfigPreview config))
        = maxTokens config
     /\ c_streaming (capabilities (generateConfigPreview config))
        = streaming config
     /\ c_thinking (capabilities (generateConfigPreview config))
        = thinking config
     /\ agent_routing (capabilities (generateConfigPreview config))
        = agentRouting config)
  /\ (forall config es,
        let now := run config es in
        p_model (render now) = model now
        /\ p_temperature (parameters (render now)) = temperature now
        /\ max_tokens (parameters (render now)) = maxTokens now)
  /\ (forall config v,
        p_model (render (step config (ChangeModel v))) = VString v)
  /\ (forall config v,
        p_temperature (parameters (render (step config (ChangeTemperature v))))
        = VNumber v)
  /\ (forall config v,
        max_tokens (parameters (render (step config (ChangeMaxTokens v))))
        = VNumber v).
Proof.
  split; [intros config; repeat split|].
  split; [intros config es now; repeat split|].
  repeat split.
Qed.

(** C9. [toggleSetting] with the key of one of the three switches
    replaces that field by its negation and copies the five other fields
    (model, temperature, maxTokens and the two other switches). *)
Theorem toggle_frame prev :
  toggleSetting Kstreaming prev
  = {| model := model prev; temperature := temperature prev;
       maxTokens := maxTokens prev;
       streaming := VBoolean (negb (truthy (streaming prev)));
       thinking := thinking prev; agentRouting := agentRouting prev |}
  /\ toggleSetting Kthinking prev
     = {| model := model prev; temperature := temperature prev;
          maxTokens := maxTokens prev;
          streaming := streaming prev;
          thinking := VBoolean (negb (truthy (thinking prev)));
          agentRouting := agentRouting prev |}
  /\ toggleSetting KagentRouting prev
     = {| model := model prev; temperature := temperature prev;
          maxTokens := maxTokens prev;
          streaming := streaming prev; thinking := thinking prev;
          agentRouting := VBoolean (negb (truthy (agentRouting prev))) |}
  /\ (forall k b, In k toggles -> get k prev = VBoolean b ->
        get k (toggleSetting k prev) = VBoolean (negb b)
        /\ forall k', k' <> k -> get k' (toggleSetting k prev) = get k' prev).
Proof.
  repeat split.
  - unfold toggleSetting, not. rewrite get_spread_same, H0. reflexivity.
  - intros k' Hk'. unfold toggleSetting. now apply get_spread_other.
Qed.

Lemma toggle_frame_witness :
  get Kthinking (toggleSetting Kthinking default) = VBoolean true
  /\ get Kmodel (toggleSetting Kthinking default) = VString "zai/glm-4.7".
Proof.
  destruct (toggle_frame default) as (_ & _ & _ & H).
  assert (Hin : In Kthinking toggles) by (simpl; tauto).
  destruct (H Kthinking false Hin eq_refl) as [Hk Hother].
  split; [exact Hk|].
  rewrite Hother by discriminate. reflexivity.
Defined.

Lemma toggle_well_typed k c :
  In k toggles -> well_typed c -> well_typed (toggleSetting k c).
Proof.
  intros Hk (Hm & Ht & Hx & Hs & Hth & Ha).
  simpl in Hk. destruct Hk as [<- | [<- | [<- | []]]];
    unfold well_typed; simpl; eauto 10.
Qed.

(** X7. On a configuration with the types of the [Config] interface,
    toggling one of the three switches twice gives the configuration
    back. *)
Lemma toggle_involutive k c :
  In k toggles -> well_typed c -> toggleSetting k (toggleSetting k c) = c.
Proof.
  intros Hk (_ & _ & _ & [bs Hs] & [bt Ht] & [ba Ha]).
  destruct c as [m t x s th a]. simpl in *. subst.
  destruct Hk as [<- | [<- | [<- | []]]];
    unfold toggleSetting, not; simpl; now rewrite Bool.negb_involutive.
Qed.

Lemma toggle_involutive_witness :
  In Kstreaming toggles /\ well_typed default
  /\ toggleSetting Kstreaming (toggleSetting Kstreaming default) = default.
Proof.
  assert (Hk : In Kstreaming toggles) by (simpl; tauto).
  assert (Hw : well_typed default) by (repeat split; eexists; reflexivity).
  split; [exact Hk|]. split; [exact Hw|].
  exact (toggle_involutive Kstreaming default Hk Hw).
Defined.

Lemma toggle_keeps_model k c : In k toggles -> model (toggleSetting k c) = model c.
Proof.
  simpl. intros [<- | [<- | [<- | []]]]; reflexivity.
Qed.

Lemma default_well_typed : well_typed default.
Proof. repeat split; eexists; reflexivity. Qed.

Lemma step_well_typed c e :
  deliverable e -> well_typed c -> well_typed (step c e).
Proof.
  intros He Hw. destruct e as [v|v|v|k|]; simpl.
  - destruct Hw as (_ & Ht & Hx & Hs & Hth & Ha).
    unfold well_typed; simpl; eauto 10.
  - destruct Hw as (Hm & _ & Hx & Hs & Hth & Ha).
    unfold well_typed; simpl; eauto 10.
  - destruct Hw as (Hm & Ht & _ & Hs & Hth & Ha).
    unfold well_typed; simpl; eauto 10.
  - now apply toggle_well_typed.
  - apply default_well_typed.
Qed.

(** X8. Whatever the user does with the controls, starting from the
    default, the configuration keeps the types of the [Config] interface
    (a string, two numbers, three booleans) and its model is one of the
    three the select offers. *)
Theorem reachable_well_typed c :
  reachable c ->
  well_typed c /\ exists m, model c = VString m /\ In m models.
Proof.
  induction 1 as [|c e Hr [IHw (m & Hm & Hin)] He].
  - split; [apply default_well_typed|].
    exists "zai/glm-4.7". split; [reflexivity | simpl; tauto].
  - split; [now apply step_well_typed|].
    destruct e as [v|v|v|k|]; cbn [step deliverable] in *.
    + exists v. split; [reflexivity | exact He].
    + exists m. split; [exact Hm | exact Hin].
    + exists m. split; [exact Hm | exact Hin].
    + exists m. rewrite toggle_keeps_model by exact He. auto.
    + exists "zai/glm-4.7". split; [reflexivity | simpl; tauto].
Qed.

Lemma reachable_well_typed_witness :
  let c := step (step default (ClickToggle Kthinking))
             (ChangeModel "zai/glm-4.7-flash") in
  reachable c /\ well_typed c.
Proof.
  intros c.
  assert (H : reachable c).
  { apply reach_step; [apply reach_step; [apply reach_default|]|];
      simpl; tauto. }
  split; [exact H | exact (proj1 (reachable_well_typed c H))].
Defined.

(** X9. Two toggles on different keys commute: the order in which two
    switches are flipped does not matter. *)
Theorem toggles_commute k1 k2 c :
  k1 <> k2 ->
  toggleSetting k1 (toggleSetting k2 c) = toggleSetting k2 (toggleSetting k1 c).
Proof.
  intros Hne. destruct k1, k2; try contradiction; reflexivity.
Qed.

Lemma toggles_commute_witness :
  Kstreaming <> KagentRouting
  /\ toggleSetting Kstreaming (toggleSetting KagentRouting default)
     = toggleSetting KagentRouting (toggleSetting Kstreaming default).
Proof.
  assert (H : Kstreaming <> KagentRouting) by discriminate.
  split; [exact H | exact (toggles_commute _ _ default H)].
Defined.

(** X10. [toggleSetting] stores a boolean under whatever key it is given.
    Called with [model], [temperature] or [maxTokens], which its signature
    allows, it leaves a configuration that no longer has the types of the
    [Config] interface. *)
Theorem toggle_stores_boolean k c :
  (exists b, get k (toggleSetting k c) = VBoolean b)
  /\ (In k [Kmodel; Ktemperature; KmaxTokens] ->
      ~ well_typed (toggleSetting k c)).
Proof.
  split.
  - eexists. unfold toggleSetting, not. apply get_spread_same.
  - intros Hk (Hm & Ht & Hx & _).
    simpl in Hk. destruct Hk as [<- | [<- | [<- | []]]]; simpl in *.
    + destruct Hm as [? [=]].
    + destruct Ht as [? [=]].
    + destruct Hx as [? [=]].
Qed.

Lemma toggle_stores_boolean_witness :
  In Kmodel [Kmodel; Ktemperature; KmaxTokens]
  /\ model (toggleSetting Kmodel default) = VBoolean false
  /\ ~ well_typed (toggleSetting Kmodel default).
Proof.
  assert (H : In Kmodel [Kmodel; Ktemperature; KmaxTokens]) by (simpl; tauto).
  split; [exact H|]. split; [reflexivity|].
  exact (proj2 (toggle_stores_boolean Kmodel default) H).
Defined.

End ConfigPreviewProofs.

Module ChatDemoProofs.
Import ChatDemo.

Lemma trim_start_blank s : blank s -> trim_start s = [].
Proof.
  unfold blank. induction s as [|c s IH]; [reflexivity|].
  simpl. intros H. apply andb_prop in H as [Hc Hs].
  rewrite Hc. now apply IH.
Qed.

Lemma trim_blank s : blank s -> trim s = [].
Proof.
  intros H. unfold trim. rewrite trim_start_blank by exact H. reflexivity.
Qed.

Lemma trim_start_nil s : trim_start s = [] -> blank s.
Proof.
  unfold blank. induction s as [|c s IH]; [reflexivity|].
  simpl. destruct (is_white_space c); [exact IH | discriminate].
Qed.

Lemma blank_rev s : blank (rev s) -> blank s.
Proof.
  unfold blank. rewrite !forallb_forall. intros H c Hc.
  apply H. now apply in_rev in Hc.
Qed.

Lemma trim_start_head s c rest :
  trim_start s = c :: rest -> is_white_space c = false.
Proof.
  induction s as [|d s IH]; [discriminate|].
  simpl. destruct (is_white_space d) eqn:Hd; [exact IH|].
  intros [= <- _]. exact Hd.
Qed.

Lemma trim_nil s : trim s = [] -> blank s.
Proof.
  unfold trim, trim_end. intros H.
  apply (f_equal (@rev _)) in H. rewrite rev_involutive in H. simpl in H.
  apply trim_start_nil, blank_rev in H.
  destruct (trim_start s) as [|c rest] eqn:Hs.
  - now apply trim_start_nil.
  - apply trim_start_head in Hs. unfold blank in H. simpl in H.
    rewrite Hs in H. discriminate.
Qed.

(** The guard of [handleSend] fires exactly on blank input. *)
Lemma guard_iff_blank s : not (trim s) = true <-> blank s.
Proof.
  split.
  - intros H. apply trim_nil. destruct (trim s); [reflexivity|discriminate].
  - intros H. now rewrite trim_blank.
Qed.

(** C10. When the input is empty or holds only white space, a submit of
    the chat form changes nothing: the messages, the pending reply timers,
    the input and the typing flag are what they were, so no user message is
    appended, no reply is scheduled, the field is not cleared and an
    indicator that was off stays off. *)
Theorem blank_submit_is_ignored e s :
  blank (input s) ->
  handleSend e s = s
  /\ step s (Submit e) = s
  /\ messages (handleSend e s) = messages s
  /\ timeouts (handleSend e s) = timeouts s
  /\ input (handleSend e s) = input s
  /\ isTyping (handleSend e s) = isTyping s
  /\ (isTyping s = false -> isTyping (handleSend e s) = false).
Proof.
  intros Hb. apply guard_iff_blank in Hb.
  assert (H : handleSend e s = s) by (unfold handleSend; now rewrite Hb).
  assert (H' : step s (Submit e) = s).
  { simpl. unfold send_disabled. now rewrite Hb. }
  rewrite H. auto 10.
Qed.

Lemma blank_submit_is_ignored_witness :
  let s := setInput [0x0020; 0x00A0; 0x0009]%N (initial 0) in
  let e := {| date_now := 5; new_date := 5; random := 0.5%float |} in
  blank (input s) /\ handleSend e s = s.
Proof.
  intros s e.
  assert (H : blank (input s)) by reflexivity.
  split; [exact H|].
  apply (blank_submit_is_ignored e s H).
Defined.

(** With anything else in the input the message is sent. *)
Lemma non_blank_submit_sends e s :
  ~ blank (input s) ->
  messages (handleSend e s)
  = messages s ++ [ {| id := date_now e; type := user;
                       content := Some (input s);
                       timestamp := new_date e |} ]
  /\ input (handleSend e s) = []
  /\ isTyping (handleSend e s) = true.
Proof.
  intros Hb. unfold handleSend.
  destruct (not (trim (input s))) eqn:Hg.
  - exfalso. apply Hb. now apply guard_iff_blank.
  - repeat split.
Qed.

Lemma enabled_means_ready s :
  send_disabled s = false ->
  not (trim (input s)) = false /\ isTyping s = false.
Proof. unfold send_disabled. apply orb_false_elim. Qed.

(** X1. In every state the chat can reach at most one reply is pending,
    and the typing indicator is on exactly while it is: either the
    indicator is on with one timer waiting, or it is off with none. *)
Theorem one_reply_pending s :
  reachable s ->
  (isTyping s = true /\ List.length (timeouts s) = 1%nat)
  \/ (isTyping s = false /\ timeouts s = []).
Proof.
  induction 1 as [mounted_at|s ev Hr IH].
  - right. split; reflexivity.
  - destruct ev as [v|q|e|i e]; simpl.
    + exact IH.
    + exact IH.
    + destruct (send_disabled s) eqn:D; [exact IH|].
      apply enabled_means_ready in D as [Hg Ht].
      destruct IH as [[IH _]|[_ IH]]; [congruence|].
      left. unfold handleSend. rewrite Hg, IH. split; reflexivity.
    + destruct (timeouts s !! i) as [d|] eqn:L; [|exact IH].
      right. split; [reflexivity|]. simpl.
      destruct IH as [[_ IH]|[_ IH]].
      * destruct (timeouts s) as [|d0 [|d1 rest]]; try discriminate IH.
        destruct i; [reflexivity|discriminate L].
      * rewrite IH in L. discriminate L.
Qed.

Lemma one_reply_pending_witness :
  let e := {| date_now := 5; new_date := 5; random := 0.5%float |} in
  let s := step (step (initial 0) (Change (lit "hi"))) (Submit e) in
  reachable s /\ isTyping s = true /\ List.length (timeouts s) = 1%nat.
Proof.
  intros e s.
  assert (H : reachable s) by (repeat apply reach_step; apply reach_initial).
  split; [exact H|].
  destruct (one_reply_pending s H) as [Hl|[Hr _]]; [exact Hl|].
  discriminate Hr.
Defined.

Lemma step_appends s ev :
  exists new, messages (step s ev) = messages s ++ new
              /\ (List.length new <= 1)%nat.
Proof.
  destruct ev as [v|q|e|i e]; simpl.
  - exists []. rewrite app_nil_r. split; [reflexivity | simpl; lia].
  - exists []. rewrite app_nil_r. split; [reflexivity | simpl; lia].
  - destruct (send_disabled s).
    + exists []. rewrite app_nil_r. split; [reflexivity | simpl; lia].
    + unfold handleSend. destruct (not (trim (input s))).
      * exists []. rewrite app_nil_r. split; [reflexivity | simpl; lia].
      * eexists. split; [reflexivity | simpl; lia].
  - destruct (timeouts s !! i).
    + eexists. split; [reflexivity | simpl; lia].
    + exists []. rewrite app_nil_r. split; [reflexivity | simpl; lia].
Qed.

(** X2. The conversation only grows: whatever events arrive, the messages
    shown before are still there, in the same order, followed by at most
    one new message per event. Nothing is ever edited or removed. *)
Theorem messages_only_grow evs : forall s,
  exists new, messages (run s evs) = messages s ++ new
              /\ (List.length new <= List.length evs)%nat.
Proof.
  induction evs as [|ev evs IH]; intros s.
  - exists []. rewrite app_nil_r. split; [reflexivity | simpl; lia].
  - destruct (step_appends s ev) as (n1 & E1 & L1).
    destruct (IH (step s ev)) as (n2 & E2 & L2).
    exists (n1 ++ n2). split.
    + change (run s (ev :: evs)) with (run (step s ev) evs).
      now rewrite E2, E1, app_assoc.
    + rewrite length_app. simpl. lia.
Qed.

(** X3. A full exchange. From a state where Send is enabled and no reply
    is pending, a submit followed by the firing of its timer appends the
    user's message, whose content is the input exactly as typed (not
    trimmed), and then the bot's message; in between Send is disabled;
    afterwards the input is empty, the indicator is off and no timer is
    left. *)
Theorem send_then_reply e1 e2 s :
  send_disabled s = false -> timeouts s = [] ->
  let waiting := step s (Submit e1) in
  let done := step waiting (TimeoutFires 0 e2) in
  send_disabled waiting = true
  /\ messages done
     = messages s
       ++ [ {| id := date_now e1; type := user;
               content := Some (input s); timestamp := new_date e1 |};
            {| id := date_now e2 + 1; type := bot;
               content := demoResponses
                            !! floor_index 5 (random e2 * 5)%float;
               timestamp := new_date e2 |} ]
  /\ input done = [] /\ isTyping done = false /\ timeouts done = [].
Proof.
  intros D Ht waiting done.
  assert (Hw : waiting
    = {| messages := messages s
           ++ [ {| id := date_now e1; type := user;
                   content := Some (input s); timestamp := new_date e1 |} ];
         input := []; isTyping := true;
         timeouts := [(1000 + random e1 * 1000)%float] |}).
  { unfold waiting. simpl. rewrite D.
    apply enabled_means_ready in D as [Hg _].
    unfold handleSend. now rewrite Hg, Ht. }
  unfold done. rewrite Hw. split; [reflexivity|].
  simpl. rewrite <- app_assoc. repeat split.
Qed.

Lemma send_then_reply_witness :
  let e := {| date_now := 5; new_date := 5; random := 0.5%float |} in
  let s := setInput (lit " hi ") (initial 0) in
  send_disabled s = false /\ timeouts s = []
  /\ input (step (step s (Submit e)) (TimeoutFires 0 e)) = [].
Proof.
  intros e s.
  assert (D : send_disabled s = false) by reflexivity.
  assert (T : timeouts s = []) by reflexivity.
  split; [exact D|]. split; [exact T|].
  apply (send_then_reply e e s D T).
Defined.

End ChatDemoProofs.

Module FeedbackFormProofs.
Import FeedbackForm.

Lemma value_present_iff v : value_missing v = false <-> v <> "".
Proof. apply String.eqb_neq. Qed.

Lemma valid_email_non_empty v : valid_email v = true -> v <> "".
Proof. intros H ->. discriminate. Qed.

Lemma checkValidity_iff f :
  checkValidity f = true
  <-> name f <> "" /\ valid_email (email f) = true /\ message f <> "".
Proof.
  unfold checkValidity, type_mismatch.
  rewrite !andb_true_iff, !negb_true_iff, !value_present_iff.
  split.
  - intros [[[Hn He] Hm] Hmsg]. repeat split; try assumption.
    apply andb_false_iff in Hm as [Hm|Hm].
    + apply negb_false_iff, String.eqb_eq in Hm. contradiction.
    + now apply negb_false_iff in Hm.
  - intros (Hn & He & Hm). repeat split; try assumption.
    + now apply valid_email_non_empty.
    + rewrite He. apply andb_false_r.
Qed.

(** C6 as the spec words it fails: with name Ann, e-mail ann and message
    Hello all three required fields are populated, yet the e-mail control
    is invalid (no ["@"]), no submit event is dispatched and the form stays
    as it was. So "populated" does not imply "accepted". *)
Lemma populated_form_not_accepted :
  let f := {| name := "Ann"; email := "ann"; rating := 5;
              category := "general"; message := "Hello" |} in
  let s := setFeedback f initial in
  (submitted s = false /\ populated (feedback s)
   /\ step s ClickSubmit = s
   /\ render (step s ClickSubmit) = Form f)
  /\ ~ (forall s, submitted s = false -> populated (feedback s) ->
          submitted (step s ClickSubmit) = true).
Proof.
  intros f s.
  assert (Hp : populated (feedback s)) by (repeat split; discriminate).
  split.
  - split; [reflexivity|]. split; [exact Hp|]. split; reflexivity.
  - intros H. specialize (H s eq_refl Hp). discriminate H.
Qed.

(** C6 (amended). While the form is shown, a submit with an empty message
    is rejected: the state is unchanged and the form stays. A submit with a
    non-empty name, a non-empty message and an e-mail that is a valid
    address is accepted: [handleSubmit] runs, the thank-you panel replaces
    the form and one reset timer is pending. *)
Theorem feedback_submit s :
  submitted s = false ->
  (message (feedback s) = "" ->
     step s ClickSubmit = s /\ render (step s ClickSubmit) = Form (feedback s))
  /\ (name (feedback s) <> "" -> valid_email (email (feedback s)) = true ->
      message (feedback s) <> "" ->
        step s ClickSubmit = handleSubmit s
        /\ submitted (step s ClickSubmit) = true
        /\ render (step s ClickSubmit) = ThankYou
        /\ timeouts (step s ClickSubmit) = S (timeouts s)).
Proof.
  intros Hs. split.
  - intros Hm.
    assert (Hv : checkValidity (feedback s) = false).
    { apply not_true_is_false. rewrite checkValidity_iff. tauto. }
    simpl. rewrite Hs. unfold requestSubmit. rewrite Hv.
    split; [reflexivity|]. unfold render. now rewrite Hs.
  - intros Hn He Hm.
    assert (Hv : checkValidity (feedback s) = true).
    { apply checkValidity_iff. auto. }
    simpl. rewrite Hs. unfold requestSubmit. rewrite Hv.
    repeat split.
Qed.

Lemma feedback_submit_witness :
  let f := {| name := "Ann"; email := "ann@example.com"; rating := 4;
              category := "feature"; message := "Hello" |} in
  let s := setFeedback f initial in
  submitted s = false
  /\ render (step s ClickSubmit) = ThankYou
  /\ step (setFeedback (with_message "" f) initial) ClickSubmit
     = setFeedback (with_message "" f) initial.
Proof.
  intros f s.
  split; [reflexivity|]. split.
  - apply (feedback_submit s eq_refl); [discriminate | reflexivity | discriminate].
  - apply (feedback_submit (setFeedback (with_message "" f) initial) eq_refl).
    reflexivity.
Defined.

(** Acceptance is decided by the controls' validity and nothing else. *)
Lemma accepted_iff_valid s :
  submitted s = false ->
  (submitted (step s ClickSubmit) = true <-> checkValidity (feedback s) = true).
Proof.
  intros Hs. simpl. rewrite Hs. unfold requestSubmit.
  destruct (checkValidity (feedback s)); simpl; [tauto|].
  rewrite Hs. split; discriminate.
Qed.

(** X5. The fields are kept across the success state: after an accepted
    submit, when the reset timer fires the form is shown again with what
    was typed. *)
Lemma form_returns_filled s :
  submitted s = false -> checkValidity (feedback s) = true ->
  timeouts s = O ->
  render (step (step s ClickSubmit) TimeoutFires) = Form (feedback s).
Proof.
  intros Hs Hv Ht. simpl. rewrite Hs. unfold requestSubmit. rewrite Hv.
  reflexivity.
Qed.

Lemma form_returns_filled_witness :
  let f := {| name := "Ann"; email := "ann@example.com"; rating := 4;
              category := "feature"; message := "Hello" |} in
  let s := setFeedback f initial in
  (submitted s = false /\ checkValidity (feedback s) = true
   /\ timeouts s = O)
  /\ render (step (step s ClickSubmit) TimeoutFires) = Form f.
Proof.
  intros f s.
  assert (H1 : submitted s = false) by reflexivity.
  assert (H2 : checkValidity (feedback s) = true) by reflexivity.
  assert (H3 : timeouts s = O) by reflexivity.
  split; [auto|]. exact (form_returns_filled s H1 H2 H3).
Defined.

Lemma step_keeps_pairing s e :
  (submitted s = true /\ timeouts s = 1%nat)
  \/ (submitted s = false /\ timeouts s = 0%nat) ->
  (submitted (step s e) = true /\ timeouts (step s e) = 1%nat)
  \/ (submitted (step s e) = false /\ timeouts (step s e) = 0%nat).
Proof.
  intros [[Hs Ht]|[Hs Ht]].
  - (* the panel is shown: only the timer can do anything *)
    destruct e; simpl; rewrite ?Hs, ?Ht; simpl; auto.
  - (* the form is shown: no timer is pending *)
    destruct e; simpl; rewrite ?Hs, ?Ht; simpl; auto.
    unfold requestSubmit. destruct (checkValidity (feedback s)); simpl.
    + left. rewrite Ht. auto.
    + right. auto.
Qed.

(** X4. In every state the form can reach the thank-you panel and the
    reset timer go together: the panel is shown with exactly one timer
    pending, or the form is shown with none. The panel therefore never
    stays: the firing of its timer brings the form back. *)
Theorem thank_you_always_resets s :
  reachable s ->
  ((submitted s = true /\ timeouts s = 1%nat)
   \/ (submitted s = false /\ timeouts s = 0%nat))
  /\ submitted (step s TimeoutFires) = false.
Proof.
  intros Hr.
  assert (H : (submitted s = true /\ timeouts s = 1%nat)
              \/ (submitted s = false /\ timeouts s = 0%nat)).
  { induction Hr as [|s e Hr IH He].
    - right. split; reflexivity.
    - now apply step_keeps_pairing. }
  split; [exact H|].
  simpl. destruct H as [[_ Ht]|[Hs Ht]]; rewrite Ht; [reflexivity | exact Hs].
Qed.

Lemma thank_you_always_resets_witness :
  let f := {| name := "Ann"; email := "ann@example.com"; rating := 4;
              category := "feature"; message := "Hello" |} in
  let s := step (step (step (step initial (ChangeName "Ann"))
                         (ChangeEmail "ann@example.com"))
                   (ChangeMessage "Hello")) ClickSubmit in
  reachable s /\ submitted s = true /\ submitted (step s TimeoutFires) = false.
Proof.
  intros f s.
  assert (H : reachable s).
  { repeat (apply reach_step; [|exact I]). apply reach_initial. }
  split; [exact H|]. split; [reflexivity|].
  exact (proj2 (thank_you_always_resets s H)).
Defined.

Lemma step_keeps_rating s e :
  deliverable e ->
  1 <= rating (feedback s) <= 5
  /\ In (category (feedback s)) (map fst categories) ->
  1 <= rating (feedback (step s e)) <= 5
  /\ In (category (feedback (step s e))) (map fst categories).
Proof.
  intros He H.
  destruct e; simpl;
    try (destruct (submitted s); exact H).
  - destruct (submitted s); [exact H|]. simpl. split; [apply H | exact He].
  - destruct (submitted s); [exact H|]. simpl. split; [|apply H].
    simpl in He. lia.
  - destruct (submitted s); [exact H|].
    unfold requestSubmit. destruct (checkValidity (feedback s)); exact H.
  - destruct (timeouts s); exact H.
Qed.

(** X6. In every state the form can reach the rating is between 1 and 5,
    the number of stars drawn filled equals the rating, and the category is
    one of the five the select offers. *)
Theorem rating_in_range s :
  reachable s ->
  1 <= rating (feedback s) <= 5
  /\ Z.of_nat (List.length (List.filter (fun filled => filled)
                              (StarRating (feedback s))))
     = rating (feedback s)
  /\ In (category (feedback s)) (map fst categories).
Proof.
  intros Hr.
  assert (H : 1 <= rating (feedback s) <= 5
              /\ In (category (feedback s)) (map fst categories)).
  { induction Hr as [|s e Hr IH He].
    - split; [simpl; lia | simpl; tauto].
    - now apply step_keeps_rating. }
  destruct H as [Hb Hc]. split; [exact Hb|]. split; [|exact Hc].
  unfold StarRating.
  assert (Hcases : rating (feedback s) = 1 \/ rating (feedback s) = 2
                   \/ rating (feedback s) = 3 \/ rating (feedback s) = 4
                   \/ rating (feedback s) = 5) by lia.
  destruct Hcases as [-> | [-> | [-> | [-> | ->]]]]; reflexivity.
Qed.

Lemma rating_in_range_witness :
  let s := step initial (ClickStar 2) in
  reachable s
  /\ StarRating (feedback s) = [true; true; false; false; false]
  /\ 1 <= rating (feedback s) <= 5.
Proof.
  intros s.
  assert (H : reachable s).
  { apply reach_step; [apply reach_initial | simpl; tauto]. }
  split; [exact H|]. split; [reflexivity|].
  exact (proj1 (rating_in_range s H)).
Defined.

End FeedbackFormProofs.

Module BuilderProofs.
Import Builder.

(** *** The order *)

Lemma date_compare_eq a b : date_compare a b = Eq <-> a = b.
Proof.
  unfold date_compare. destruct a as [y m d], b as [y' m' d']; simpl.
  destruct (Z.compare_spec y y'); [|split; [discriminate|intros [=]; lia]..].
  destruct (Z.compare_spec m m'); [|split; [discriminate|intros [=]; lia]..].
  destruct (Z.compare_spec d d'); [|split; [discriminate|intros [=]; lia]..].
  subst. tauto.
Qed.

Lemma date_compare_lt a b : date_compare a b = Lt <-> earlier a b.
Proof.
  unfold date_compare, earlier. destruct a as [y m d], b as [y' m' d']; simpl.
  destruct (Z.compare_spec y y'); [|split; [lia|reflexivity]|split; [discriminate|lia]].
  destruct (Z.compare_spec m m'); [|split; [lia|reflexivity]|split; [discriminate|lia]].
  destruct (Z.compare_spec d d'); split; try discriminate; try lia; reflexivity.
Qed.

Lemma date_compare_antisym a b :
  date_compare a b = CompOpp (date_compare b a).
Proof.
  unfold date_compare.
  rewrite (Z.compare_antisym (year b) (year a)),
    (Z.compare_antisym (month b) (month a)),
    (Z.compare_antisym (day b) (day a)).
  destruct (year b ?= year a), (month b ?= month a), (day b ?= day a);
    reflexivity.
Qed.

Lemma date_compare_gt a b : date_compare a b = Gt <-> earlier b a.
Proof.
  rewrite <- date_compare_lt, (date_compare_antisym a b).
  destruct (date_compare b a); simpl; split; congruence.
Qed.

Lemma earlier_trans a b c : earlier a b -> earlier b c -> earlier a c.
Proof. unfold earlier. lia. Qed.

Lemma earlier_irrefl a : ~ earlier a a.
Proof. unfold earlier. lia. Qed.

Lemma precedes_spec a b : precedes a b = true <-> index_order a b.
Proof.
  unfold precedes, index_order.
  destruct (date_compare (date_of a) (date_of b)) eqn:Hc.
  - apply date_compare_eq in Hc. split; [auto|].
    intros [He|[_ Hs]]; [|exact Hs].
    rewrite Hc in He. now apply earlier_irrefl in He.
  - apply date_compare_lt in Hc. split; [discriminate|].
    intros [He|[Heq _]].
    + exfalso. apply (earlier_irrefl (date_of a)). eapply earlier_trans; eauto.
    + rewrite Heq in Hc. now apply earlier_irrefl in Hc.
  - apply date_compare_gt in Hc. split; auto.
Qed.

Lemma ascii_compare_lt_trans x y z :
  Ascii.compare x y = Lt -> Ascii.compare y z = Lt -> Ascii.compare x z = Lt.
Proof.
  unfold Ascii.compare. rewrite !N.compare_lt_iff. lia.
Qed.

Lemma string_compare_lt_trans a : forall b c,
  String.compare a b = Lt -> String.compare b c = Lt -> String.compare a c = Lt.
Proof.
  induction a as [|x a IH]; intros [|y b] [|z c]; simpl;
    try discriminate; try reflexivity.
  destruct (Ascii.compare x y) eqn:Hxy; try discriminate.
  - apply Ascii.compare_eq_iff in Hxy. subst y.
    destruct (Ascii.compare x z); try discriminate; [apply IH | reflexivity].
  - intros _. destruct (Ascii.compare y z) eqn:Hyz; try discriminate.
    + apply Ascii.compare_eq_iff in Hyz. subst z. now rewrite Hxy.
    + intros _. now rewrite (ascii_compare_lt_trans x y z).
Qed.

Lemma string_leb_trans a b c :
  String.leb a b = true -> String.leb b c = true -> String.leb a c = true.
Proof.
  unfold String.leb.
  destruct (String.compare a b) eqn:Hab; try discriminate;
    destruct (String.compare b c) eqn:Hbc; try discriminate; intros _ _.
  - apply String.compare_eq_iff in Hab. subst. now rewrite Hbc.
  - apply String.compare_eq_iff in Hab. subst. now rewrite Hbc.
  - apply String.compare_eq_iff in Hbc. subst. now rewrite Hab.
  - now rewrite (string_compare_lt_trans a b c).
Qed.

Lemma index_order_total a b : index_order a b \/ index_order b a.
Proof.
  rewrite <- !precedes_spec. unfold precedes.
  rewrite (date_compare_antisym (date_of b)).
  destruct (date_compare (date_of a) (date_of b)); simpl; auto.
  apply String.leb_total.
Qed.

Lemma index_order_trans a b c :
  index_order a b -> index_order b c -> index_order a c.
Proof.
  unfold index_order. intros [Hab|[Hab Sab]] [Hbc|[Hbc Sbc]].
  - left. eapply earlier_trans; eauto.
  - left. now rewrite <- Hbc.
  - left. now rewrite Hab.
  - right. split; [congruence|]. eapply string_leb_trans; eauto.
Qed.

Lemma index_order_antisym a b :
  index_order a b -> index_order b a ->
  date_of a = date_of b /\ slug a = slug b.
Proof.
  unfold index_order. intros [Hab|[Hab Sab]] [Hba|[Hba Sba]].
  - exfalso. apply (earlier_irrefl (date_of a)). eapply earlier_trans; eauto.
  - rewrite Hba in Hab. now apply earlier_irrefl in Hab.
  - rewrite Hab in Hba. now apply earlier_irrefl in Hba.
  - split; [exact Hab|]. now apply String.leb_antisym.
Qed.

(** *** The sort *)

Lemma insert_perm x l : Permutation (insert x l) (x :: l).
Proof.
  induction l as [|y l IH]; simpl; [reflexivity|].
  destruct (precedes x y); [reflexivity|].
  rewrite IH. apply perm_swap.
Qed.

Lemma sort_perm l : Permutation (sort l) l.
Proof.
  induction l as [|x l IH]; simpl; [reflexivity|].
  rewrite insert_perm. now constructor.
Qed.

Lemma insert_hd x y l :
  index_order y x -> HdRel index_order y l -> HdRel index_order y (insert x l).
Proof.
  intros Hyx Hl. destruct l as [|z l]; simpl.
  - now constructor.
  - destruct (precedes x z); constructor; [exact Hyx|].
    now inversion Hl.
Qed.

Lemma insert_sorted x l :
  Sorted index_order l -> Sorted index_order (insert x l).
Proof.
  induction 1 as [|y l Hl IH Hy]; simpl.
  - repeat constructor.
  - destruct (precedes x y) eqn:Hxy.
    + apply precedes_spec in Hxy.
      constructor; [now constructor | now constructor].
    + constructor; [exact IH|]. apply insert_hd; [|exact Hy].
      destruct (index_order_total x y) as [H|H]; [|exact H].
      apply precedes_spec in H. congruence.
Qed.

Lemma sort_sorted l : Sorted index_order (sort l).
Proof.
  induction l as [|x l IH]; simpl; [constructor|now apply insert_sorted].
Qed.

Lemma sort_strongly_sorted l : StronglySorted index_order (sort l).
Proof.
  apply Sorted_StronglySorted; [|apply sort_sorted].
  intros a b c. apply index_order_trans.
Qed.

Lemma insert_in_front x l :
  HdRel index_order x l -> insert x l = x :: l.
Proof.
  intros H. destruct l as [|y l]; [reflexivity|]. simpl.
  apply HdRel_inv, precedes_spec in H. now rewrite H.
Qed.

Lemma sort_of_sorted l : Sorted index_order l -> sort l = l.
Proof.
  induction 1 as [|x l Hl IH Hx]; [reflexivity|].
  simpl. fold (sort l). rewrite IH. now apply insert_in_front.
Qed.

Lemma sort_idempotent l : sort (sort l) = sort l.
Proof. apply sort_of_sorted, sort_sorted. Qed.

Lemma sorted_perm_unique (l1 : list ContentItem) : forall l2,
  StronglySorted index_order l1 -> StronglySorted index_order l2 ->
  Permutation l1 l2 ->
  (forall a b, In a l1 -> In b l1 -> index_order a b -> index_order b a -> a = b) ->
  l1 = l2.
Proof.
  induction l1 as [|a l1 IH]; intros l2 S1 S2 HP Hanti.
  - now apply Permutation_nil in HP.
  - destruct l2 as [|b l2].
    { symmetry in HP. now apply Permutation_nil in HP. }
    apply StronglySorted_inv in S1 as [S1 Ha].
    apply StronglySorted_inv in S2 as [S2 Hb].
    assert (Hab : a = b).
    { assert (Hin_a : In a (b :: l2)).
      { eapply Permutation_in; [exact HP|now left]. }
      assert (Hin_b : In b (a :: l1)).
      { eapply Permutation_in; [symmetry; exact HP|now left]. }
      destruct Hin_a as [->|Hin_a]; [reflexivity|].
      destruct Hin_b as [->|Hin_b]; [reflexivity|].
      rewrite List.Forall_forall in Ha, Hb.
      apply Hanti; [now left|now right|auto..]. }
    subst b. f_equal. apply IH; try assumption.
    + eapply Permutation_cons_inv; exact HP.
    + intros x y Hx Hy. apply Hanti; now right.
Qed.

(** With unique slugs the index does not depend on the order in which the
    content directory was listed. *)
Lemma sort_independent_of_listing l1 l2 :
  Permutation l1 l2 -> NoDup (map slug l1) -> sort l1 = sort l2.
Proof.
  intros HP Hnd. apply sorted_perm_unique; try apply sort_strongly_sorted.
  - now rewrite !sort_perm.
  - intros a b Ha Hb Hab Hba.
    apply (Permutation_in _ (sort_perm l1)) in Ha, Hb.
    destruct (index_order_antisym a b Hab Hba) as [_ Hs].
    clear -Ha Hb Hs Hnd.
    induction l1 as [|x l IH]; [contradiction|].
    simpl in Hnd. apply NoDup_cons in Hnd as [Hx Hnd].
    destruct Ha as [->|Ha], Hb as [->|Hb]; auto.
    + exfalso. apply Hx. rewrite list_elem_of_In, Hs. now apply in_map.
    + exfalso. apply Hx. rewrite list_elem_of_In, <- Hs. now apply in_map.
Qed.

(** *** The pipeline *)

Lemma loaded_slug f item : loaded f = Some item -> slug item = file_slug f.
Proof.
  unfold loaded, load. intros H.
  destruct (frontmatter f !! "title"); [|discriminate].
  destruct (frontmatter f !! "date" ≫= parse_date); [|discriminate].
  injection H as <-. reflexivity.
Qed.

Lemma loaded_slugs files :
  sublist (map slug (omap loaded files)) (map file_slug files).
Proof.
  induction files as [|f files IH]; simpl; [constructor|].
  destruct (loaded f) as [item|] eqn:Hf; simpl.
  - rewrite (loaded_slug f item Hf). now constructor.
  - now constructor.
Qed.

Lemma sort_loaded_independent_of_listing files files' :
  Permutation files files' -> NoDup (map file_slug files) ->
  sort (omap loaded files) = sort (omap loaded files').
Proof.
  intros HP Hnd. apply sort_independent_of_listing.
  - now apply omap_Permutation.
  - exact (sublist_NoDup _ _ Hnd (loaded_slugs files)).
Qed.

Section Pipeline.

Variable markdown_to_html : string -> string.
Variable render_template : ContentItem -> string -> string.
Variable metadata_header : ContentItem -> string.
Variable discovery_document : list SiteRef -> string.
Variable feed_document : list SiteRef -> string.
Variable sitemap_document : list SiteRef -> string.
Variable section : string.
Variable writable : path -> bool.

Local Abbreviation build :=
  (Builder.build markdown_to_html render_template metadata_header
     discovery_document feed_document sitemap_document section writable).
Local Abbreviation render :=
  (Builder.render markdown_to_html render_template metadata_header).
Local Abbreviation paired :=
  (Builder.paired markdown_to_html render_template metadata_header section).
Local Abbreviation write := (Builder.write writable).
Local Abbreviation write_page := (Builder.write_page section writable).
Local Abbreviation page_inserted := (Builder.page_inserted section).
Local Abbreviation write_aggregates :=
  (Builder.write_aggregates discovery_document feed_document
     sitemap_document writable).

(** **** One write *)

Lemma intact_iff d : intact d = true <-> failure d = None.
Proof. unfold intact. destruct (failure d); split; congruence. Qed.

Lemma write_intact p c d :
  intact (write p c d) = intact d && writable p.
Proof.
  unfold Builder.write, intact.
  destruct (failure d) eqn:F; simpl; [now rewrite F|].
  destruct (writable p); reflexivity.
Qed.

Lemma write_succeeds p c d :
  failure (write p c d) = None ->
  failure d = None /\ writable p = true
  /\ written (write p c d) = <[p := c]> (written d).
Proof.
  unfold Builder.write.
  destruct (failure d) eqn:F; [congruence|].
  destruct (writable p); [auto | discriminate].
Qed.

Lemma write_other p q c d :
  p <> q -> written (write p c d) !! q = written d !! q.
Proof.
  intros Hne. unfold Builder.write.
  destruct (failure d); [reflexivity|].
  destruct (writable p); simpl; [now rewrite lookup_insert_ne | reflexivity].
Qed.

Lemma write_fresh_path p c d :
  written d !! p = None ->
  written (write p c d) !! p
  = if intact d && writable p then Some c else None.
Proof.
  intros Hp. unfold Builder.write, intact.
  destruct (failure d); simpl; [exact Hp|].
  destruct (writable p); simpl; [apply lookup_insert_eq | exact Hp].
Qed.

(** **** The pages *)

Lemma write_page_intact d pg :
  intact (write_page d pg)
  = intact d && writable (Page section (page_slug pg) Html)
    && writable (Page section (page_slug pg) Md).
Proof. unfold Builder.write_page. now rewrite !write_intact. Qed.

Lemma write_pages_intact pages : forall d,
  intact (foldl write_page d pages)
  = intact d
    && forallb (fun pg => writable (Page section (page_slug pg) Html)
                          && writable (Page section (page_slug pg) Md)) pages.
Proof.
  induction pages as [|pg pages IH]; intros d; simpl.
  - now rewrite andb_true_r.
  - rewrite IH, write_page_intact. now rewrite <- !andb_assoc.
Qed.

Lemma write_page_succeeds d pg :
  failure (write_page d pg) = None ->
  failure d = None
  /\ written (write_page d pg) = page_inserted (written d) pg.
Proof.
  unfold Builder.write_page, Builder.page_inserted. intros H.
  apply write_succeeds in H as (H & _ & ->).
  apply write_succeeds in H as (H & _ & ->). auto.
Qed.

Lemma write_pages_succeed pages : forall d,
  failure (foldl write_page d pages) = None ->
  failure d = None
  /\ written (foldl write_page d pages) = foldl page_inserted (written d) pages.
Proof.
  induction pages as [|pg pages IH]; intros d H; [auto|].
  simpl in *. apply IH in H as [H ->].
  apply write_page_succeeds in H as [H ->]. auto.
Qed.

Lemma write_pages_other pages q : forall d,
  (forall s e, Page section s e <> q) ->
  written (foldl write_page d pages) !! q = written d !! q.
Proof.
  intros d Hq. revert d.
  induction pages as [|pg pages IH]; intros d; [reflexivity|].
  simpl. rewrite IH. unfold Builder.write_page.
  now rewrite !write_other by apply Hq.
Qed.

Lemma page_inserted_paired items out item :
  In item items ->
  (forall s, paired items out s) ->
  forall s, paired items (page_inserted out (render item)) s.
Proof.
  intros Hin Hout s. unfold Builder.page_inserted, Builder.paired. simpl.
  destruct (decide (slug item = s)) as [<-|Hne].
  - right. exists item. rewrite lookup_insert_ne by discriminate.
    rewrite !lookup_insert_eq. auto.
  - rewrite !lookup_insert_ne by congruence. apply Hout.
Qed.

Lemma pages_inserted_paired all items : forall out,
  (forall item, In item items -> In item all) ->
  (forall s, paired all out s) ->
  forall s, paired all (foldl page_inserted out (map render items)) s.
Proof.
  induction items as [|item items IH]; intros out Hsub Hout; [exact Hout|].
  simpl. apply IH.
  - intros i Hi. apply Hsub. now right.
  - apply page_inserted_paired; [apply Hsub; now left | exact Hout].
Qed.

Lemma page_inserted_keeps out p q :
  is_Some (out !! q) -> is_Some (page_inserted out p !! q).
Proof.
  intros H. unfold Builder.page_inserted.
  rewrite !lookup_insert. repeat case_decide; eauto.
Qed.

Lemma pages_inserted_keep pages : forall out q,
  is_Some (out !! q) ->
  is_Some (foldl page_inserted out pages !! q).
Proof.
  induction pages as [|p pages IH]; intros out q H; [exact H|].
  simpl. apply IH. now apply page_inserted_keeps.
Qed.

Lemma pages_inserted_cover items : forall out item e,
  In item items ->
  is_Some (foldl page_inserted out (map render items)
             !! Page section (slug item) e).
Proof.
  induction items as [|i items IH]; intros out item e Hin; [contradiction|].
  simpl. destruct Hin as [->|Hin]; [|now apply IH].
  apply pages_inserted_keep. unfold Builder.page_inserted. simpl.
  destruct e.
  - rewrite lookup_insert_ne by discriminate.
    rewrite lookup_insert_eq. eauto.
  - rewrite lookup_insert_eq. eauto.
Qed.

Lemma empty_paired items s : paired items ∅ s.
Proof. left. split; apply lookup_empty. Qed.

(** **** The aggregates *)

Lemma aggregates_keep_pages idx d s e :
  written (write_aggregates idx d) !! Page section s e
  = written d !! Page section s e.
Proof.
  unfold Builder.write_aggregates. now rewrite !write_other by discriminate.
Qed.

Lemma aggregates_succeed idx d :
  failure (write_aggregates idx d) = None -> failure d = None.
Proof.
  unfold Builder.write_aggregates. intros H.
  apply write_succeeds in H as (H & _).
  apply write_succeeds in H as (H & _).
  now apply write_succeeds in H as (H & _).
Qed.

(** What the three aggregate paths hold after the aggregates' turn, on a
    disk that did not hold them before. *)
Lemma aggregates_lookup idx d :
  written d !! Discovery = None -> written d !! Feed = None ->
  written d !! Sitemap = None ->
  written (write_aggregates idx d) !! Discovery
  = (if intact d && writable Discovery
     then Some (discovery_document idx) else None)
  /\ written (write_aggregates idx d) !! Feed
     = (if intact d && writable Discovery && writable Feed
        then Some (feed_document idx) else None)
  /\ written (write_aggregates idx d) !! Sitemap
     = (if intact d && writable Discovery && writable Feed && writable Sitemap
        then Some (sitemap_document idx) else None).
Proof.
  intros HD HF HS. unfold Builder.write_aggregates. repeat split.
  - rewrite !write_other by discriminate. now apply write_fresh_path.
  - rewrite write_other by discriminate.
    rewrite write_fresh_path by (now rewrite write_other by discriminate).
    now rewrite write_intact.
  - rewrite write_fresh_path
      by (now rewrite !write_other by discriminate).
    now rewrite !write_intact.
Qed.

Lemma pages_hold_no_aggregate pages :
  let d := foldl write_page fresh pages in
  written d !! Discovery = None /\ written d !! Feed = None
  /\ written d !! Sitemap = None.
Proof.
  intros d. unfold d.
  rewrite !write_pages_other by discriminate. repeat split.
Qed.

Lemma build_documents files :
  let idx := site_index section (omap loaded files) in
  let pages := foldl write_page fresh (map render (omap loaded files)) in
  let out := output (build files) in
  out !! Discovery
  = (if intact pages && writable Discovery
     then Some (discovery_document idx) else None)
  /\ out !! Feed
     = (if intact pages && writable Discovery && writable Feed
        then Some (feed_document idx) else None)
  /\ out !! Sitemap
     = (if intact pages && writable Discovery && writable Feed
           && writable Sitemap
        then Some (sitemap_document idx) else None).
Proof.
  intros idx pages out.
  destruct (pages_hold_no_aggregate (map render (omap loaded files)))
    as (HD & HF & HS).
  exact (aggregates_lookup idx pages HD HF HS).
Qed.

Lemma pages_intact_independent_of_listing items items' :
  Permutation items items' ->
  intact (foldl write_page fresh (map render items))
  = intact (foldl write_page fresh (map render items')).
Proof.
  intros HP. rewrite !write_pages_intact. f_equal.
  apply eq_true_iff_eq. rewrite !forallb_forall.
  split; intros H pg Hpg; apply H;
    (eapply Permutation_in; [|exact Hpg]);
    [symmetry|]; now apply Permutation_map.
Qed.

Lemma aggregates_intact idx d :
  intact (write_aggregates idx d)
  = intact d && writable Discovery && writable Feed && writable Sitemap.
Proof. unfold Builder.write_aggregates. now rewrite !write_intact. Qed.

Lemma all_writable_no_failure files :
  (forall p, writable p = true) -> write_error (build files) = None.
Proof.
  intros Hw. apply intact_iff. unfold Builder.build; cbn [write_error].
  rewrite aggregates_intact, write_pages_intact, !Hw, !andb_true_r.
  apply forallb_forall. intros pg _. now rewrite !Hw.
Qed.

Lemma no_failure_all_written files :
  write_error (build files) = None ->
  intact (foldl write_page fresh (map render (omap loaded files))) = true
  /\ writable Discovery = true /\ writable Feed = true
  /\ writable Sitemap = true.
Proof.
  intros H. apply intact_iff in H.
  unfold Builder.build in H; cbn [write_error] in H.
  rewrite aggregates_intact in H.
  repeat (apply andb_prop in H as [H ?]). auto.
Qed.

(** C1. For every build, the items that loaded are put in the order
    "date descending, equal dates by slug ascending"; the ordered sequence
    holds exactly those items; the discovery index, the feed and the
    sitemap are generated from it: a build without write failure holds all
    three, and whichever of them a build holds is the one generated from
    the ordered sequence; a build whose writes all succeed has no write
    failure; the order is total; ordering what is already ordered changes
    nothing, and a second build over the same files yields the same three
    documents even when the directory lists them in another order (slugs
    being unique); and two items dated 2026-02-16 (slug b) and 2026-02-14
    (slug a) are listed b first, whichever was read first. *)
Theorem site_index_ordered (files : list ContentFile) :
  let items := omap loaded files in
  let result := build files in
  let out := output result in
  StronglySorted index_order (sort items)
  /\ Permutation (sort items) items
  /\ site_index section items = map (reference section) (sort items)
  /\ (write_error result = None ->
      out !! Discovery = Some (discovery_document (site_index section items))
      /\ out !! Feed = Some (feed_document (site_index section items))
      /\ out !! Sitemap = Some (sitemap_document (site_index section items)))
  /\ (forall d, out !! Discovery = Some d ->
        d = discovery_document (site_index section items))
  /\ (forall d, out !! Feed = Some d ->
        d = feed_document (site_index section items))
  /\ (forall d, out !! Sitemap = Some d ->
        d = sitemap_document (site_index section items))
  /\ ((forall p, writable p = true) -> write_error result = None)
  /\ (forall a b, index_order a b \/ index_order b a)
  /\ sort (sort items) = sort items
  /\ site_index section (sort items) = site_index section items
  /\ (forall files',
        Permutation files files' -> NoDup (map file_slug files) ->
        let out' := output (build files') in
        out' !! Discovery = out !! Discovery
        /\ out' !! Feed = out !! Feed
        /\ out' !! Sitemap = out !! Sitemap)
  /\ (forall ta da ba tb db bb,
        let a := {| title := ta; description := da; body := ba; slug := "a";
                    date_of := {| year := 2026; month := 2; day := 14 |} |} in
        let b := {| title := tb; description := db; body := bb; slug := "b";
                    date_of := {| year := 2026; month := 2; day := 16 |} |} in
        site_index section [a; b] = [reference section b; reference section a]
        /\ site_index section [b; a]
           = [reference section b; reference section a]).
Proof.
  intros items result out. subst out result items.
  destruct (build_documents files) as (D & F & S).
  split; [apply sort_strongly_sorted|].
  split; [apply sort_perm|].
  split; [reflexivity|].
  split.
  { intros H. apply no_failure_all_written in H as (Hp & HD & HF & HS).
    rewrite D, F, S, Hp, HD, HF, HS. auto. }
  split.
  { intros d Hd. rewrite D in Hd.
    match type of Hd with (if ?c then _ else _) = _ => destruct c end;
      congruence. }
  split.
  { intros d Hd. rewrite F in Hd.
    match type of Hd with (if ?c then _ else _) = _ => destruct c end;
      congruence. }
  split.
  { intros d Hd. rewrite S in Hd.
    match type of Hd with (if ?c then _ else _) = _ => destruct c end;
      congruence. }
  split; [apply all_writable_no_failure|].
  split; [apply index_order_total|].
  split; [apply sort_idempotent|].
  split; [unfold site_index; now rewrite sort_idempotent|].
  split.
  - intros files' HP Hnd out'. subst out'.
    destruct (build_documents files') as (D' & F' & S').
    rewrite D, F, S, D', F', S'. unfold site_index.
    rewrite (sort_loaded_independent_of_listing files files' HP Hnd).
    rewrite (pages_intact_independent_of_listing
               (omap loaded files) (omap loaded files'))
      by now apply omap_Permutation.
    auto.
  - intros ta da ba tb db bb a b. split; reflexivity.
Qed.

(** C2 (amended). For every build that ends without a write failure and
    every slug, the HTML page and the markdown page are both absent or both
    present, and when present both come from one content item: the HTML is
    the template applied to the conversion of the item's body, the markdown
    is the metadata header followed by that same body. Every item that
    loaded has both pages; a file that failed to load adds neither. *)
Theorem pages_written_in_pairs (files : list ContentFile) (s : string) :
  let items := omap loaded files in
  let out := output (build files) in
  write_error (build files) = None ->
  ((out !! Page section s Html = None /\ out !! Page section s Md = None)
   \/ exists item, In item items /\ slug item = s
        /\ out !! Page section s Html
           = Some (render_template item (markdown_to_html (body item)))
        /\ out !! Page section s Md
           = Some (metadata_header item +:+ body item))
  /\ (is_Some (out !! Page section s Html)
      <-> is_Some (out !! Page section s Md))
  /\ (forall item, In item items ->
        is_Some (out !! Page section (slug item) Html)
        /\ is_Some (out !! Page section (slug item) Md))
  /\ ((forall f, In f files -> file_slug f = s -> loaded f = None) ->
        out !! Page section s Html = None /\ out !! Page section s Md = None).
Proof.
  intros items out Hok.
  assert (Hpages : written (foldl write_page fresh (map render items))
                   = foldl page_inserted ∅ (map render items)).
  { unfold Builder.build in Hok; cbn [write_error] in Hok.
    apply aggregates_succeed, write_pages_succeed in Hok as [_ H].
    exact H. }
  assert (Hout : forall s' e, out !! Page section s' e
                 = foldl page_inserted ∅ (map render items)
                     !! Page section s' e).
  { intros s' e. rewrite <- Hpages. apply aggregates_keep_pages. }
  assert (Hp : paired items (foldl page_inserted ∅ (map render items)) s).
  { apply pages_inserted_paired; [auto | apply empty_paired]. }
  split; [|split; [|split]].
  - rewrite !Hout. exact Hp.
  - rewrite !Hout. destruct Hp as [[-> ->]|(item & _ & _ & -> & ->)].
    + tauto.
    + split; eauto.
  - intros item Hin. rewrite !Hout.
    split; now apply pages_inserted_cover.
  - intros Hnone. rewrite !Hout.
    destruct Hp as [Hp|(item & Hin & Hs & _)]; [exact Hp|].
    exfalso. apply list_elem_of_In, list_elem_of_omap in Hin as (f & Hf & Hl).
    apply list_elem_of_In in Hf.
    rewrite (Hnone f Hf) in Hl; [discriminate|].
    apply loaded_slug in Hl. congruence.
Qed.

End Pipeline.

(** The documents of the two-post scenario, from the files themselves,
    with every write succeeding: the post of the 16th is listed first
    although it is read second, and a third file without a date is reported
    and left out while its siblings build. *)
Example two_posts_and_a_draft :
  let post d s :=
    {| file_slug := s; file_body := "text";
       frontmatter := <["title" := "T"]> (<["date" := d]> ∅) |} in
  let draft :=
    {| file_slug := "c"; file_body := "text";
       frontmatter := <["title" := "T"]> ∅ |} in
  let files := [post "2026-02-14" "a"; draft; post "2026-02-16" "b"] in
  let lines idx := String.concat ";" (map ref_slug idx) in
  let result :=
    build (fun b => "<p>" +:+ b +:+ "</p>") (fun _ b => b)
      (fun item => title item +:+ ": ") lines lines lines "blog"
      (fun _ => true) files in
  map slug (omap loaded files) = ["a"; "b"]
  /\ output result !! Discovery = Some "b;a"
  /\ errors result = [ {| path_of := "c"; field := "date" |} ]
  /\ write_error result = None
  /\ exit_code result = 1
  /\ output result !! Page "blog" "c" Html = None
  /\ output result !! Page "blog" "c" Md = None
  /\ output result !! Page "blog" "a" Html = Some "<p>text</p>"
  /\ output result !! Page "blog" "b" Md = Some "T: text".
Proof. vm_compute. repeat split. Qed.

(** C2 as the spec words it fails: when the write of the markdown page
    fails, the build aborts and keeps what it has written (section 7), so
    the HTML page of the item is there without its markdown page. *)
Lemma html_without_markdown :
  let post :=
    {| file_slug := "a"; file_body := "text";
       frontmatter := <["title" := "T"]> (<["date" := "2026-02-14"]> ∅) |} in
  let refuses_md p := negb (bool_decide (p = Page "blog" "a" Md)) in
  let result :=
    build (fun b => "<p>" +:+ b +:+ "</p>") (fun _ b => b)
      (fun item => title item +:+ ": ") (fun _ => "") (fun _ => "")
      (fun _ => "") "blog" refuses_md [post] in
  (map slug (omap loaded [post]) = ["a"]
   /\ write_error result = Some {| unwritable := Page "blog" "a" Md |}
   /\ exit_code result = 1
   /\ output result !! Page "blog" "a" Html = Some "<p>text</p>"
   /\ output result !! Page "blog" "a" Md = None)
  /\ ~ (forall writable files s,
          let out :=
            output (build (fun b => "<p>" +:+ b +:+ "</p>") (fun _ b => b)
                      (fun item => title item +:+ ": ") (fun _ => "")
                      (fun _ => "") (fun _ => "") "blog" writable files) in
          is_Some (out !! Page "blog" s Html)
          <-> is_Some (out !! Page "blog" s Md)).
Proof.
  intros post refuses_md result.
  assert (H : output result !! Page "blog" "a" Html = Some "<p>text</p>"
              /\ output result !! Page "blog" "a" Md = None)
    by (vm_compute; split; reflexivity).
  split.
  - split; [vm_compute; reflexivity|].
    split; [vm_compute; reflexivity|].
    split; [vm_compute; reflexivity|]. exact H.
  - intros Hall. specialize (Hall refuses_md [post] "a").
    cbv zeta in Hall. fold result in Hall.
    destruct H as [Hh Hm]. rewrite Hh, Hm in Hall.
    destruct Hall as [Hall _]. destruct Hall as [x Hx]; [eauto|discriminate].
Qed.

Lemma site_index_ordered_witness :
  let post d s :=
    {| file_slug := s; file_body := "text";
       frontmatter := <["title" := "T"]> (<["date" := d]> ∅) |} in
  let files := [post "2026-02-14" "a"; post "2026-02-16" "b"] in
  let files' := [post "2026-02-16" "b"; post "2026-02-14" "a"] in
  let lines idx := String.concat ";" (map ref_slug idx) in
  let build :=
    build id (fun _ b => b) title lines lines lines "blog" (fun _ => true) in
  Permutation files files' /\ NoDup (map file_slug files)
  /\ write_error (build files) = None
  /\ output (build files) !! Discovery = Some "b;a"
  /\ output (build files') !! Discovery = output (build files) !! Discovery.
Proof.
  intros post files files' lines build. subst build.
  assert (HP : Permutation files files') by apply perm_swap.
  assert (Hnd : NoDup (map file_slug files)).
  { apply (bool_decide_unpack _). vm_compute. reflexivity. }
  split; [exact HP|]. split; [exact Hnd|].
  destruct (site_index_ordered id (fun _ b => b) title lines lines lines
              "blog" (fun _ => true) files)
    as (_ & _ & _ & HD & _ & _ & _ & Hok & _ & _ & _ & Hind & _).
  assert (Hnone := Hok (fun _ => eq_refl)).
  split; [exact Hnone|]. split.
  - rewrite (proj1 (HD Hnone)). vm_compute. reflexivity.
  - apply (Hind files' HP Hnd).
Defined.

Lemma pages_written_in_pairs_witness :
  let post d s :=
    {| file_slug := s; file_body := "text";
       frontmatter := <["title" := "T"]> (<["date" := d]> ∅) |} in
  let files := [post "2026-02-14" "a"; post "2026-02-31" "b"] in
  let build :=
    build (fun b => "<p>" +:+ b +:+ "</p>") (fun _ b => b)
      (fun item => title item +:+ ": ") (fun _ => "") (fun _ => "")
      (fun _ => "") "blog" (fun _ => true) in
  let out := output (build files) in
  write_error (build files) = None
  /\ (is_Some (out !! Page "blog" "a" Html)
      /\ is_Some (out !! Page "blog" "a" Md))
  /\ out !! Page "blog" "b" Html = None /\ out !! Page "blog" "b" Md = None.
Proof.
  intros post files build out. subst out build.
  assert (Hok : write_error
                  (Builder.build (fun b => "<p>" +:+ b +:+ "</p>")
                     (fun _ b => b) (fun item => title item +:+ ": ")
                     (fun _ => "") (fun _ => "") (fun _ => "") "blog"
                     (fun _ => true) files) = None)
    by (vm_compute; reflexivity).
  split; [exact Hok|].
  destruct (pages_written_in_pairs (fun b => "<p>" +:+ b +:+ "</p>")
              (fun _ b => b) (fun item => title item +:+ ": ")
              (fun _ => "") (fun _ => "") (fun _ => "") "blog"
              (fun _ => true) files "a" Hok)
    as (_ & _ & Hcover & _).
  destruct (pages_written_in_pairs (fun b => "<p>" +:+ b +:+ "</p>")
              (fun _ b => b) (fun item => title item +:+ ": ")
              (fun _ => "") (fun _ => "") (fun _ => "") "blog"
              (fun _ => true) files "b" Hok)
    as (_ & _ & _ & Hnone).
  split.
  - apply (Hcover {| title := "T"; description := ""; body := "text";
                     slug := "a";
                     date_of := {| year := 2026; month := 2; day := 14 |} |}).
    vm_compute. left. reflexivity.
  - apply Hnone. intros f Hf Hs.
    destruct Hf as [<-|[<-|[]]]; [discriminate Hs|].
    vm_compute. reflexivity.
Defined.

End BuilderProofs.

Module StatusDashboardProofs.
Import StatusDashboard.

Lemma paused_timer_never_updates s nows :
  interval s = false -> run s (map TimerFires nows) = s.
Proof.
  intros Hi. induction nows as [|now nows IH]; [reflexivity|].
  simpl. rewrite Hi. exact IH.
Qed.

Lemma interval_is_autoRefresh s : reachable s -> interval s = autoRefresh s.
Proof.
  induction 1 as [now|s e Hr IH].
  - reflexivity.
  - destruct e as [now|]; simpl.
    + destruct (interval s) eqn:E; simpl; rewrite ?E; exact IH.
    + destruct (autoRefresh s); reflexivity.
Qed.

(** X17. In every state the dashboard can reach the refresh interval is
    registered exactly when auto-refresh is on. Pausing freezes the "last
    updated" time however many periods elapse; pausing and resuming gives
    back the state as it was; and while live a firing of the timer sets the
    time to that of the firing. *)
Theorem paused_dashboard_is_frozen s :
  reachable s ->
  interval s = autoRefresh s
  /\ step (step s ClickToggle) ClickToggle = s
  /\ (autoRefresh s = true ->
      (forall nows,
         lastUpdated (run (step s ClickToggle) (map TimerFires nows))
         = lastUpdated s)
      /\ (forall now, lastUpdated (step s (TimerFires now)) = now)).
Proof.
  intros Hr. pose proof (interval_is_autoRefresh s Hr) as Hi.
  split; [exact Hi|]. split.
  - destruct s as [d a i]. simpl in *. subst i. destruct a; reflexivity.
  - intros Ha. split.
    + intros nows. rewrite paused_timer_never_updates; [reflexivity|].
      simpl. now rewrite Ha.
    + intros now. simpl. rewrite Hi, Ha. reflexivity.
Qed.

Lemma paused_dashboard_is_frozen_witness :
  reachable (initial 100)
  /\ lastUpdated (run (step (initial 100) ClickToggle)
                    (map TimerFires [5100; 10100])) = 100
  /\ lastUpdated (step (initial 100) (TimerFires 5100)) = 5100.
Proof.
  assert (H : reachable (initial 100)) by apply reach_initial.
  destruct (paused_dashboard_is_frozen (initial 100) H) as (_ & _ & Hl).
  destruct (Hl eq_refl) as [Hfrozen Hlive].
  split; [exact H|]. split; [apply (Hfrozen [5100; 10100]) | apply Hlive].
Defined.

End StatusDashboardProofs.

Module FeatureComparisonProofs.
Import FeatureComparison.

(** X18. The colour and the text of a support badge always agree, for
    any value and not only the three marks: green goes with Supported,
    yellow with Partial and red with Not Supported; a value that is
    neither the check mark nor the circle falls to red and Not Supported. *)
Theorem badge_colour_matches_text value :
  (getFeatureClass value
   = "bg-green-100 text-green-800 dark:bg-green-900 dark:text-green-200"
   <-> supportLabel value = "Supported")
  /\ (getFeatureClass value
      = "bg-yellow-100 text-yellow-800 dark:bg-yellow-900 dark:text-yellow-200"
      <-> supportLabel value = "Partial")
  /\ (getFeatureClass value
      = "bg-red-100 text-red-800 dark:bg-red-900 dark:text-red-200"
      <-> supportLabel value = "Not Supported")
  /\ (value <> "✓" -> value <> "○" ->
      getFeatureClass value
      = "bg-red-100 text-red-800 dark:bg-red-900 dark:text-red-200"
      /\ supportLabel value = "Not Supported").
Proof.
  unfold getFeatureClass, supportLabel, JS.strict_eq.
  destruct (String.eqb_spec value "✓") as [->|H1].
  - repeat split; try discriminate; intros; congruence.
  - destruct (String.eqb_spec value "○") as [->|H2].
    + repeat split; try discriminate; intros; congruence.
    + repeat split; try discriminate; intros; congruence.
Qed.

Lemma badge_colour_matches_text_witness :
  "?" <> "✓" /\ "?" <> "○" /\ supportLabel "?" = "Not Supported".
Proof.
  assert (H1 : "?" <> "✓") by discriminate.
  assert (H2 : "?" <> "○") by discriminate.
  split; [exact H1|]. split; [exact H2|].
  destruct (badge_colour_matches_text "?") as (_ & _ & _ & H).
  exact (proj2 (H H1 H2)).
Defined.

(** X19. A click on a row of the table selects that feature: exactly
    that row is highlighted and the detail panel is shown. A click on the
    cross deselects: no row is highlighted and the panel is gone. *)
Theorem one_row_highlighted sel feature :
  In feature features ->
  List.filter (row_highlighted (step sel (ClickRow feature))) features
  = [feature]
  /\ is_Some (panel (step sel (ClickRow feature)))
  /\ List.filter (row_highlighted (step sel ClickClose)) features = []
  /\ panel (step sel ClickClose) = None.
Proof.
  intros Hin. simpl in Hin.
  destruct Hin as [<-|[<-|[<-|[<-|[<-|[<-|[<-|[<-|[]]]]]]]]];
    (split; [reflexivity|]); (split; [simpl; eauto|]);
    split; reflexivity.
Qed.

Lemma one_row_highlighted_witness :
  let f := {| name := "Quick Tasks"; main := "✓"; complex := "×";
              description := "Fast responses and simple queries" |} in
  In f features
  /\ List.filter (row_highlighted (step None (ClickRow f))) features = [f]
  /\ panel (step None (ClickRow f))
     = Some (("bg-green-100 text-green-800 dark:bg-green-900 dark:text-green-200",
              "Supported"),
             ("bg-red-100 text-red-800 dark:bg-red-900 dark:text-red-200",
              "Not Supported")).
Proof.
  intros f.
  assert (H : In f features) by (simpl; tauto).
  split; [exact H|].
  split; [exact (proj1 (one_row_highlighted None f H)) | reflexivity].
Defined.

End FeatureComparisonProofs.
